(** * Course catalog loader (catalog.cpp / catalog.hpp)

    A shallow embedding of the catalog core: the text helpers [trim] and
    [toUpper], the identifier validator [isCourseIdValid], the path
    resolution [resolveCourseFilePath], and the three methods of the
    [Catalog] class ([load], [get], [ids]).

    Conventions of the embedding:
    - [std::string] is [string] (a sequence of 8-bit characters);
    - [std::isalpha], [std::isdigit] and [std::toupper] are taken in the
      "C" locale, on the character cast to [unsigned char];
    - [std::unordered_map<std::string, Course>] is [gmap string Course];
      its iteration order is unspecified in C++, and every place where the
      source iterates over it feeds an order-insensitive consumer (a
      [std::set] or [std::sort]);
    - [std::set<std::string>] is a strictly increasing list, with the
      insertion returning the [.second] flag of [std::set::insert];
    - the file system is an explicit value: the current directory, what
      the absolute path names lead to, and the names on which the system
      refuses to answer; a library call that throws is a [Throws]. *)

From Stdlib Require Import Ascii String NArith Lia DecimalString.
From stdpp Require Import gmap strings list fin_maps sorting.

Set Warnings "-clear-no-such-hyp".

(** ** Characters *)

Module Char.

Local Open Scope N_scope.

(** [static_cast<unsigned char>(ch)] *)
Definition code (ch : ascii) : N := N_of_ascii ch.

(** [std::isalpha] ("C" locale): 'A'..'Z' and 'a'..'z'. *)
Definition isalpha (ch : ascii) : bool :=
  let n := code ch in
  ((65 <=? n) && (n <=? 90)) || ((97 <=? n) && (n <=? 122)).

(** [std::isdigit]: '0'..'9'. *)
Definition isdigit (ch : ascii) : bool :=
  let n := code ch in (48 <=? n) && (n <=? 57).

(** [std::toupper] ("C" locale): 'a'..'z' move down by 32. *)
Definition toupper (ch : ascii) : ascii :=
  let n := code ch in
  if (97 <=? n) && (n <=? 122) then ascii_of_N (n - 32) else ch.

(** Membership in the character set [" \t\r\n"] that [trim] removes. *)
Definition inTrimSet (ch : ascii) : bool :=
  let n := code ch in
  (n =? 32) || (n =? 9) || (n =? 13) || (n =? 10).

End Char.

(** ** Text helpers *)

(** [text.find_first_not_of(" \t\r\n")] followed by [substr(first)]. *)
Fixpoint dropBlanks (text : string) : string :=
  match text with
  | EmptyString => EmptyString
  | String ch rest => if Char.inTrimSet ch then dropBlanks rest else text
  end.

(** The prefix of [text] ending at [find_last_not_of(" \t\r\n")]. *)
Fixpoint dropTrailingBlanks (text : string) : string :=
  match text with
  | EmptyString => EmptyString
  | String ch rest =>
      match dropTrailingBlanks rest with
      | EmptyString =>
          if Char.inTrimSet ch then EmptyString else String ch EmptyString
      | kept => String ch kept
      end
  end.

(** [trim]: the empty string when every character is blank, otherwise
    [text.substr(first, last - first + 1)]. *)
Definition trim (text : string) : string :=
  dropTrailingBlanks (dropBlanks text).

(** [toUpper]: every character through [std::toupper]. *)
Fixpoint toUpper (value : string) : string :=
  match value with
  | EmptyString => EmptyString
  | String ch rest => String (Char.toupper ch) (toUpper rest)
  end.

(** [std::to_string] of a [std::size_t]. *)
Definition to_string (n : N) : string :=
  NilZero.string_of_uint (N.to_uint n).

(** ** Identifier validator *)

(** The [for (char ch : courseId)] loop of [isCourseIdValid], with its two
    flags; each [return false] ends the scan at once. *)
Fixpoint scanCourseId (hasLetter hasDigit : bool) (courseId : string) : bool :=
  match courseId with
  | EmptyString => hasLetter && hasDigit
  | String ch rest =>
      if Char.isalpha ch then
        if hasDigit then false else scanCourseId true hasDigit rest
      else if Char.isdigit ch then scanCourseId hasLetter true rest
      else false
  end.

Definition isCourseIdValid (courseId : string) : bool :=
  match courseId with
  | EmptyString => false
  | _ => scanCourseId false false courseId
  end.

(** ** The data of catalog.hpp *)

Record Course := {
  courseNumber : string;
  courseName : string;
  prerequisites : list string
}.

(** [courses] is a [std::size_t]; it only ever receives the size of a
    container, which fits. *)
Record LoadResult := {
  ok : bool;
  courses : N;
  warnings : list string;
  missingPrerequisites : list string;
  path : string
}.

(** The private members of [class Catalog]. *)
Record Catalog := {
  courseDirectory : gmap string Course;
  sortedCourseIds : list string
}.

(** A default-constructed [Catalog]. *)
Definition emptyCatalog : Catalog :=
  {| courseDirectory := ∅; sortedCourseIds := [] |}.

(** ** [std::set<std::string>]

    The elements in increasing order of [std::less<std::string>], which
    compares character by character as unsigned bytes ([String.compare]).
    [set_insert] returns the new set and the [.second] of
    [std::set::insert]: whether the element was new. *)
Fixpoint set_insert (x : string) (s : list string) : list string * bool :=
  match s with
  | [] => ([x], true)
  | y :: rest =>
      match String.compare x y with
      | Lt => (x :: s, true)
      | Eq => (s, false)
      | Gt => let (rest', fresh) := set_insert x rest in (y :: rest', fresh)
      end
  end.

(** [std::sort] on a [std::vector<std::string>] with [operator<]. *)
Definition sort (v : list string) : list string := merge_sort String.le v.

(** ** Reading lines

    The successive values of [line] in [while (std::getline(in, line, delim))]:
    each call takes the characters up to the next delimiter and consumes
    the delimiter; the call that finds no character left fails and ends
    the loop. *)
Fixpoint getlines (delim : ascii) (input : string) : list string :=
  match input with
  | EmptyString => []
  | String ch rest =>
      if Ascii.eqb ch delim then EmptyString :: getlines delim rest
      else match getlines delim rest with
           | [] => [String ch EmptyString]
           | line :: more => String ch line :: more
           end
  end.

Definition newline : ascii := "010"%char.
Definition comma : ascii := ","%char.

(** ** Calls that may throw

    [fs::exists], [fs::absolute] and [fs::current_path] are called in
    their throwing form: when the system cannot answer they end by a
    [std::filesystem::filesystem_error], which nothing in the program
    catches. *)
Inductive Try (A : Type) : Type :=
  | Returns (a : A)
  | Throws.

Arguments Returns {A} a.
Arguments Throws {A}.

(** ** The file system seen by [load]

    [workingDirectory] lists the directory names of the current
    directory from the root down, and [cwdAvailable] tells whether the
    system can report it ([getcwd] fails for a directory that was removed
    or that the process may not read up to).  [statusFails] holds for the
    absolute names whose status query fails for another reason than the
    file being absent (a name too long, a directory that may not be
    searched); [node] gives what an absolute name leads to.  A relative
    name is looked up by the system from the current directory
    ([systemPath]).  The file system does not change during a call. *)
Inductive FileNode :=
  | Readable (content : string)
  | Unreadable.

Record FileSystem := {
  workingDirectory : list string;
  cwdAvailable : bool;
  statusFails : string -> bool;
  node : string -> option FileNode
}.

Definition kMaxParentSearchDepth : nat := 10.

(** [fs::path::is_absolute] (POSIX): the name starts at the root. *)
Definition is_absolute (p : string) : bool :=
  match p with
  | String ch _ => Ascii.eqb ch "/"%char
  | EmptyString => false
  end.

(** The name of a directory given by its components; the root is ["/"]. *)
Definition dirName (dir : list string) : string :=
  match dir with
  | [] => "/"
  | _ => fold_right (fun name rest => "/" +:+ name +:+ rest) "" dir
  end.

(** [searchDir / requested]: an absolute right-hand side replaces the
    left one; otherwise a separator is added unless [searchDir] is the
    root, which already ends in one. *)
Definition pathAppend (searchDir : list string) (requested : string) : string :=
  if is_absolute requested then requested
  else match searchDir with
       | [] => "/" +:+ requested
       | _ => dirName searchDir +:+ "/" +:+ requested
       end.

(** The absolute name under which the system looks [p] up. *)
Definition systemPath (fs : FileSystem) (p : string) : string :=
  pathAppend (workingDirectory fs) p.

(** [fs::current_path()]. *)
Definition current_path (fs : FileSystem) : Try (list string) :=
  if cwdAvailable fs then Returns (workingDirectory fs) else Throws.

(** [fs::absolute(p)]: an error for the empty path, [p] itself when
    absolute, else [current_path() / p]. *)
Definition absolute (fs : FileSystem) (p : string) : Try string :=
  match p with
  | EmptyString => Throws
  | _ =>
      if is_absolute p then Returns p
      else match current_path fs with
           | Returns dir => Returns (pathAppend dir p)
           | Throws => Throws
           end
  end.

(** [fs::exists(p)]: throws when the status query fails. *)
Definition exists_ (fs : FileSystem) (p : string) : Try bool :=
  if statusFails fs (systemPath fs p) then Throws
  else match node fs (systemPath fs p) with
       | Some _ => Returns true
       | None => Returns false
       end.

(** [has_parent_path] and [parent_path] of an absolute directory: the
    parent of the root is the root, so the answer is always yes. *)
Definition has_parent_path (searchDir : list string) : bool := true.

Definition parent_path (searchDir : list string) : list string :=
  removelast searchDir.

(** [return fs::absolute(candidate)] into the [std::optional]. *)
Definition found (resolved : Try string) : Try (option string) :=
  match resolved with
  | Returns p => Returns (Some p)
  | Throws => Throws
  end.

(** The [for (int depth = 0; depth < kMaxParentSearchDepth; ++depth)] loop
    of [resolveCourseFilePath]; [remaining] counts the iterations left. *)
Fixpoint searchParents (fs : FileSystem) (requested : string)
    (searchDir : list string) (remaining : nat) : Try (option string) :=
  match remaining with
  | O => Returns None
  | S remaining' =>
      let candidate := pathAppend searchDir requested in
      match exists_ fs candidate with
      | Throws => Throws
      | Returns true => found (absolute fs candidate)
      | Returns false =>
          if negb (has_parent_path searchDir) then Returns None
          else searchParents fs requested (parent_path searchDir) remaining'
      end
  end.

Definition resolveCourseFilePath (fs : FileSystem) (fileName : string)
    : Try (option string) :=
  match fileName with
  | EmptyString => Returns None
  | _ =>
      if is_absolute fileName then
        match exists_ fs fileName with
        | Throws => Throws
        | Returns true => found (absolute fs fileName)
        | Returns false => Returns None
        end
      else
        match exists_ fs fileName with
        | Throws => Throws
        | Returns true => found (absolute fs fileName)
        | Returns false =>
            match current_path fs with
            | Throws => Throws
            | Returns searchDir =>
                searchParents fs fileName searchDir kMaxParentSearchDepth
            end
        end
  end.

(** ** The parsing loop of [Catalog::load] *)

(** The locals that the line loop updates: [loadedCourseDirectory],
    [warnings] and [lineNumber] (a [std::size_t]). *)
Record LoadState := {
  loadedCourseDirectory : gmap string Course;
  collected : list string;
  lineNumber : N
}.

Definition initialLoadState : LoadState :=
  {| loadedCourseDirectory := ∅; collected := []; lineNumber := 0 |}.

(** The locals of the prerequisite loop: [seenPrereqs],
    [course.prerequisites] and the shared [warnings]. *)
Record PrereqState := {
  seenPrereqs : list string;
  accepted : list string;
  prereqWarnings : list string
}.

Definition invalidPrereqWarning (column courseNumber : string) : string :=
  "Skipping invalid prerequisite '" +:+ column +:+ "' for course " +:+
  courseNumber +:+ ".".

Definition duplicatePrereqWarning (prereqId courseNumber : string) : string :=
  "Duplicate prerequisite '" +:+ prereqId +:+ "' ignored for course " +:+
  courseNumber +:+ ".".

Definition replacingWarning (courseNumber : string) : string :=
  "Replacing existing course entry for " +:+ courseNumber +:+ ".".

Definition tooFewColumnsWarning (lineNumber : N) : string :=
  "Skipping line " +:+ to_string lineNumber +:+
  ": expected course ID and name.".

Definition invalidIdWarning (lineNumber : N) (column : string) : string :=
  "Skipping line " +:+ to_string lineNumber +:+ ": invalid course ID '" +:+
  column +:+ "'.".

(** One iteration of [for (std::size_t i = 2; i < columns.size(); ++i)]. *)
Definition prereqStep (courseNumber : string) (st : PrereqState)
    (column : string) : PrereqState :=
  match column with
  | EmptyString => st
  | _ =>
      let prereqId := toUpper column in
      if negb (isCourseIdValid prereqId) then
        {| seenPrereqs := seenPrereqs st;
           accepted := accepted st;
           prereqWarnings :=
             prereqWarnings st ++ [invalidPrereqWarning column courseNumber] |}
      else
        let (seen', fresh) := set_insert prereqId (seenPrereqs st) in
        if negb fresh then
          {| seenPrereqs := seen';
             accepted := accepted st;
             prereqWarnings :=
               prereqWarnings st ++
               [duplicatePrereqWarning prereqId courseNumber] |}
        else
          {| seenPrereqs := seen';
             accepted := accepted st ++ [prereqId];
             prereqWarnings := prereqWarnings st |}
  end.

(** The whole prerequisite loop over [columns[2..]], starting from an
    empty [seenPrereqs] and an empty [course.prerequisites]. *)
Definition parsePrereqs (courseNumber : string) (warningsSoFar : list string)
    (columns : list string) : PrereqState :=
  fold_left (prereqStep courseNumber) columns
    {| seenPrereqs := []; accepted := []; prereqWarnings := warningsSoFar |}.

(** One iteration of [while (std::getline(input, line))]. *)
Definition processLine (st : LoadState) (rawLine : string) : LoadState :=
  let lineNumber' := ((lineNumber st + 1) mod 2 ^ 64)%N in
  let skip (ws : list string) :=
    {| loadedCourseDirectory := loadedCourseDirectory st;
       collected := ws; lineNumber := lineNumber' |} in
  match trim rawLine with
  | EmptyString => skip (collected st)
  | line =>
      match trim <$> getlines comma line with
      | column0 :: column1 :: others =>
          let courseId := toUpper column0 in
          if negb (isCourseIdValid courseId) then
            skip (collected st ++ [invalidIdWarning lineNumber' column0])
          else
            let ps := parsePrereqs courseId (collected st) others in
            let course :=
              {| courseNumber := courseId; courseName := column1;
                 prerequisites := accepted ps |} in
            let ws :=
              match loadedCourseDirectory st !! courseId with
              | Some _ => prereqWarnings ps ++ [replacingWarning courseId]
              | None => prereqWarnings ps
              end in
            {| loadedCourseDirectory :=
                 <[courseId := course]> (loadedCourseDirectory st);
               collected := ws; lineNumber := lineNumber' |}
      | _ => skip (collected st ++ [tooFewColumnsWarning lineNumber'])
      end
  end.

(** The state after the line loop has consumed the whole file. *)
Definition parseFile (content : string) : LoadState :=
  fold_left processLine (getlines newline content) initialLoadState.

(** ** After the loop: dangling prerequisites, sorted ids, commit *)

Definition missingDescription (prereq courseId : string) : string :=
  prereq +:+ " (referenced by " +:+ courseId +:+ ")".

(** The inner [for (const auto& prereq : course.prerequisites)]. *)
Definition missingOfCourse (loaded : gmap string Course)
    (missingSet : list string) (entry : string * Course) : list string :=
  fold_left
    (fun acc prereq =>
       match loaded !! prereq with
       | None => fst (set_insert (missingDescription prereq (fst entry)) acc)
       | Some _ => acc
       end)
    (prerequisites (snd entry)) missingSet.

(** The outer loop over the entries of [loadedCourseDirectory]. *)
Definition collectMissing (loaded : gmap string Course) : list string :=
  fold_left (missingOfCourse loaded) (map_to_list loaded) [].

(** [sortedIds]: the keys pushed in iteration order, then sorted. *)
Definition buildSortedIds (loaded : gmap string Course) : list string :=
  sort ((map_to_list loaded).*1).

(** [Catalog::load]: how the call ends, with the result when it returns,
    and the members of the object after the call. *)
Definition load (fs : FileSystem) (fileName : string) (self : Catalog)
    : Try LoadResult * Catalog :=
  match fileName with
  | EmptyString =>
      (Returns
         {| ok := false; courses := 0; warnings := ["File name is empty."];
            missingPrerequisites := []; path := "" |}, self)
  | _ =>
      match resolveCourseFilePath fs fileName with
      | Throws => (Throws, self)
      | Returns None =>
          (Returns
             {| ok := false; courses := 0;
                warnings := ["Unable to locate file: " +:+ fileName];
                missingPrerequisites := []; path := fileName |}, self)
      | Returns (Some resolvedPath) =>
          match node fs resolvedPath with
          | Some (Readable content) =>
              let st := parseFile content in
              let loaded := loadedCourseDirectory st in
              if decide (loaded = ∅) then
                (Returns
                   {| ok := false; courses := 0; warnings := collected st;
                      missingPrerequisites := []; path := resolvedPath |},
                 self)
              else
                (Returns
                   {| ok := true; courses := N.of_nat (size loaded);
                      warnings := collected st;
                      missingPrerequisites := collectMissing loaded;
                      path := resolvedPath |},
                 {| courseDirectory := loaded;
                    sortedCourseIds := buildSortedIds loaded |})
          | _ =>
              (Returns
                 {| ok := false; courses := 0;
                    warnings := ["Unable to open file: " +:+ resolvedPath];
                    missingPrerequisites := []; path := resolvedPath |},
               self)
          end
      end
  end.

(** [Catalog::get]: [nullptr] is [None]. *)
Definition get (self : Catalog) (id : string) : option Course :=
  courseDirectory self !! id.

(** [Catalog::ids]: a copy of the cached vector. *)
Definition ids (self : Catalog) : list string := sortedCourseIds self.
(** The shape of an identifier in the words of the specification: the
    token is non-empty, made of letters and digits only, has at least one
    letter and at least one digit, and no letter stands after a digit. *)
Definition chars (s : string) : list ascii := list_ascii_of_string s.

Definition lettersThenDigits (token : string) : Prop :=
  token <> EmptyString /\
  (forall ch, In ch (chars token) ->
     Char.isalpha ch = true \/ Char.isdigit ch = true) /\
  (exists ch, In ch (chars token) /\ Char.isalpha ch = true) /\
  (exists ch, In ch (chars token) /\ Char.isdigit ch = true) /\
  (forall (i j : nat) ci cj, (i < j)%nat ->
     String.get i token = Some ci -> String.get j token = Some cj ->
     Char.isdigit ci = true -> Char.isalpha cj = false).


(** ** Notions used to state the properties *)

(** The [k]-th directory visited by the parent search: [k] steps above the
    current one. *)
Definition ancestor (k : nat) (dir : list string) : list string :=
  Nat.iter k parent_path dir.

(** The [k]-th candidate of the parent search for a relative name. *)
Definition candidate (fs : FileSystem) (requested : string) (k : nat) : string :=
  pathAppend (ancestor k (workingDirectory fs)) requested.

(** The name can be queried and nothing is there; the name can be queried
    and something is there. *)
Definition absent (fs : FileSystem) (p : string) : Prop :=
  statusFails fs p = false /\ node fs p = None.

Definition present (fs : FileSystem) (p : string) : Prop :=
  statusFails fs p = false /\ node fs p <> None.

(** The result of a failed load with a single message. *)
Definition failure (message path : string) : LoadResult :=
  {| ok := false; courses := 0; warnings := [message];
     missingPrerequisites := []; path := path |}.

(** What [load] answers once it has read [content] from [resolvedPath]:
    a failure without change when there is no valid record, else the
    success that commits what was parsed. *)
Definition loadedFrom (content resolvedPath : string) (self : Catalog)
    : LoadResult * Catalog :=
  let st := parseFile content in
  let loaded := loadedCourseDirectory st in
  if decide (loaded = ∅) then
    ({| ok := false; courses := 0; warnings := collected st;
        missingPrerequisites := []; path := resolvedPath |}, self)
  else
    ({| ok := true; courses := N.of_nat (size loaded);
        warnings := collected st;
        missingPrerequisites := collectMissing loaded;
        path := resolvedPath |},
     {| courseDirectory := loaded;
        sortedCourseIds := buildSortedIds loaded |}).

(** What opening exactly [resolvedPath] and reading it gives. *)
Definition openedAt (fs : FileSystem) (resolvedPath : string)
    (self : Catalog) : Try LoadResult * Catalog :=
  match node fs resolvedPath with
  | Some (Readable content) =>
      (Returns (loadedFrom content resolvedPath self).1,
       (loadedFrom content resolvedPath self).2)
  | _ =>
      (Returns
         (failure ("Unable to open file: " +:+ resolvedPath) resolvedPath),
       self)
  end.

(** The files of the examples and the file system that holds them: the
    current directory is [/proj/build]; it holds a file that cannot be
    opened, a file without valid record and a file that defines a course
    twice; the two-course catalog sits one level up, beside a directory
    [/proj/private] that may not be searched, so that a status query on
    a name under it fails. *)
Definition twoCourses : string :=
  "CSCI200, Intro to CS, CSCI101" +:+ String newline
  ("CSCI101, Programming Fundamentals" +:+ String newline "").

Definition definedTwice : string :=
  "CSCI200,Intro" +:+ String newline
  ("MATH101,Calculus" +:+ String newline
  ("csci200,Intro II,math101,PHYS7" +:+ String newline "")).

Definition buildTree : FileSystem :=
  {| workingDirectory := ["proj"; "build"];
     cwdAvailable := true;
     statusFails := fun p => String.prefix "/proj/private/" p;
     node := fun p =>
       if String.eqb p "/proj/data.csv" then Some (Readable twoCourses)
       else if String.eqb p "/proj/build/locked.csv" then Some Unreadable
       else if String.eqb p "/proj/build/bad.csv"
         then Some (Readable "200CSCI,Bad ID")
       else if String.eqb p "/proj/build/twice.csv"
         then Some (Readable definedTwice)
       else None |}.

(** The strict order of [std::less<std::string>]. *)
Definition String_lt (s1 s2 : string) : Prop := String.compare s1 s2 = Lt.

(** A [std::set<std::string>] in the model: strictly increasing. *)
Definition isSet (s : list string) : Prop := StronglySorted String_lt s.

(** The prerequisites kept for one record, in the words of the
    specification: of the candidates that pass the validator once
    uppercased, the first occurrence of each, in encounter order. *)
Fixpoint firstOccurrences (l : list string) : list string :=
  match l with
  | [] => []
  | x :: rest => x :: filter (fun y => y <> x) (firstOccurrences rest)
  end.

Definition validCandidates (columns : list string) : list string :=
  filter (fun id => isCourseIdValid id = true) (toUpper <$> columns).

(** The warnings of the prerequisite loop, in the words of the
    specification: nothing for an empty field, one message for a field
    that fails the validator once uppercased, one message for a valid
    field already among the prerequisites [kept] so far. *)
Fixpoint prereqMessages (owner : string) (kept fields : list string)
    : list string :=
  match fields with
  | [] => []
  | field :: rest =>
      if decide (field = EmptyString) then prereqMessages owner kept rest
      else if isCourseIdValid (toUpper field) then
        if decide (toUpper field ∈ kept) then
          duplicatePrereqWarning (toUpper field) owner ::
          prereqMessages owner kept rest
        else prereqMessages owner (kept ++ [toUpper field]) rest
      else invalidPrereqWarning field owner :: prereqMessages owner kept rest
  end.

(** The prerequisite loop keeps [seenPrereqs] and [course.prerequisites] in step. *)
Definition prereqInvariant (st : PrereqState) : Prop :=
  isSet (seenPrereqs st) /\
  (forall x, x ∈ seenPrereqs st <-> x ∈ accepted st) /\
  NoDup (accepted st).

(** The course that one line of the file defines, if any: the record that
    the loop body stores for it. *)
Definition lineRecord (rawLine : string) : option Course :=
  match trim rawLine with
  | EmptyString => None
  | line =>
      match trim <$> getlines comma line with
      | column0 :: column1 :: others =>
          if isCourseIdValid (toUpper column0) then
            Some {| courseNumber := toUpper column0; courseName := column1;
                    prerequisites :=
                      accepted (parsePrereqs (toUpper column0) [] others) |}
          else None
      | _ => None
      end
  end.

(** The valid records of a file, in line order, and those among them
    that define a given identifier. *)
Definition records (lines : list string) : list Course :=
  omap lineRecord lines.

Definition definitionsOf (id : string) (lines : list string) : list Course :=
  filter (fun c => courseNumber c = id) (records lines).

Definition fileLines (content : string) : list string :=
  getlines newline content.

(** ** The catalog as a state machine

    The public methods as calls on the object. [get] and [ids] are
    [const] members of a class without [mutable] fields: the object after
    the call is the object before it. *)
Inductive Call :=
  | CallLoad (fs : FileSystem) (fileName : string)
  | CallGet (id : string)
  | CallIds.

Inductive Answer :=
  | LoadAnswer (r : Try LoadResult)
  | GetAnswer (c : option Course)
  | IdsAnswer (l : list string).

Definition call (c : Call) (self : Catalog) : Answer * Catalog :=
  match c with
  | CallLoad fs fileName =>
      let (r, self') := load fs fileName self in (LoadAnswer r, self')
  | CallGet id => (GetAnswer (get self id), self)
  | CallIds => (IdsAnswer (ids self), self)
  end.

(** The states a catalog object can be in: default-constructed, then any
    sequence of calls. *)
Inductive reachable : Catalog -> Prop :=
  | reachable_new : reachable emptyCatalog
  | reachable_call c self : reachable self -> reachable (call c self).2.

(** The warnings that validating one line produces, apart from the
    replacement warning: none for a blank line, one for a line with fewer
    than two fields or with an invalid identifier, and those of the
    prerequisite loop otherwise. *)
Definition lineMessages (lineNumber : N) (rawLine : string) : list string :=
  match trim rawLine with
  | EmptyString => []
  | line =>
      match trim <$> getlines comma line with
      | column0 :: column1 :: others =>
          if isCourseIdValid (toUpper column0)
          then prereqMessages (toUpper column0) [] others
          else [invalidIdWarning lineNumber column0]
      | _ => [tooFewColumnsWarning lineNumber]
      end
  end.

(** How often a message occurs in a list of warnings. *)
Definition occurrences (message : string) (ws : list string) : nat :=
  length (filter (fun w => w = message) ws).

(** The catalog committed by a successful load of [content]. *)
Definition committed (content : string) : Catalog :=
  {| courseDirectory := loadedCourseDirectory (parseFile content);
     sortedCourseIds :=
       buildSortedIds (loadedCourseDirectory (parseFile content)) |}.

(** The catalog after a first load of the example file. *)
Definition afterFirstLoad : Catalog :=
  (load buildTree "data.csv" emptyCatalog).2.

(** The sorted sequence is derived from the mapping. *)
Definition catalogInvariant (self : Catalog) : Prop :=
  sortedCourseIds self = buildSortedIds (courseDirectory self).

(** * The callers of the catalog: main_cli.cpp and models.cpp *)

(** [std::string::back] and the string after [pop_back]. *)
Fixpoint back (text : string) : option ascii :=
  match text with
  | EmptyString => None
  | String ch EmptyString => Some ch
  | String _ rest => back rest
  end.

Fixpoint pop_back (text : string) : string :=
  match text with
  | EmptyString => EmptyString
  | String _ EmptyString => EmptyString
  | String ch rest => String ch (pop_back rest)
  end.

(** [static_cast<int>] of a [std::size_t], and the decimal text that
    [operator<<] prints for an [int]. *)
Definition to_int (n : Z) : Z := ((n + 2 ^ 31) mod 2 ^ 32 - 2 ^ 31)%Z.

Definition int_to_string (z : Z) : string :=
  NilZero.string_of_int (Z.to_int z).

Module Cli.

(** main_cli.cpp carries its own copies of [trim], [toUpper] and
    [isCourseIdValid], character for character those of catalog.cpp; the
    definitions above stand for both. *)

(** [removeTrailingComma], as the new value of its reference argument. *)
Definition removeTrailingComma (text : string) : string :=
  match back text with
  | Some ch => if Ascii.eqb ch comma then trim (pop_back text) else text
  | None => text
  end.

Record NormalizedCourseId := {
  id : string;
  wasTrimmed : bool
}.

(** The [for (char ch : input)] loop of [normalizeCourseIdInput]: the
    value of [parsedId] when the loop ends, by [break] or at the end. *)
Fixpoint parseCourseId (hasDigit : bool) (input : string) : string :=
  match input with
  | EmptyString => EmptyString
  | String ch rest =>
      if Char.isalpha ch then
        if hasDigit then EmptyString
        else String ch (parseCourseId hasDigit rest)
      else if Char.isdigit ch then String ch (parseCourseId true rest)
      else EmptyString
  end.

Definition normalizeCourseIdInput (input : string)
    : option NormalizedCourseId :=
  let input := removeTrailingComma (toUpper (trim input)) in
  match input with
  | EmptyString => None
  | _ =>
      let parsedId := parseCourseId false input in
      if negb (isCourseIdValid parsedId) then None
      else Some {| id := parsedId;
                   wasTrimmed := negb (String.eqb parsedId input) |}
  end.

Inductive TextStyle :=
  | Reset | MenuBorder | MenuTitle | MenuNumber | MenuText
  | Prompt | Success | Warning | Error | Info.

Record FrameStyle := {
  topLeft : string;
  topRight : string;
  bottomLeft : string;
  bottomRight : string;
  horizontal : string;
  vertical : string
}.

Record StyledLine := {
  plain : string;
  colored : string
}.

(** The file-scope variables of the program. *)
Record Session := {
  loadedData : bool;
  courseCatalog : Catalog;
  lastLoadResult : LoadResult;
  currentCatalogPath : string;
  advisorGuiExecutable : string
}.

(** The variables as initialised at start-up. *)
Definition initialSession : Session :=
  {| loadedData := false;
     courseCatalog := emptyCatalog;
     lastLoadResult :=
       {| ok := false; courses := 0; warnings := [];
          missingPrerequisites := []; path := "" |};
     currentCatalogPath := "";
     advisorGuiExecutable := "advisor_gui" |}.

(** [repeatPattern]. *)
Fixpoint repeatPattern (pattern : string) (count : nat) : string :=
  match count with
  | O => EmptyString
  | S count' => pattern +:+ repeatPattern pattern count'
  end.

(** The command line that [launchDashboard] hands to [std::system]. *)
Definition quote : ascii := "034"%char.

Definition dashboardCommand (st : Session) : string :=
  let command :=
    String quote (advisorGuiExecutable st) +:+ String quote EmptyString in
  match currentCatalogPath st with
  | EmptyString => command
  | catalogPath =>
      command +:+ String " " (String quote catalogPath) +:+
      String quote EmptyString
  end.

Section Console.

(** What is written to [std::cout] is the list of the operands of [<<],
    in order.  The colour codes and the frame are chosen once from the
    environment ([activePalette], [activeFrame]); here they are given. *)
Variable ansi : TextStyle -> string.
Variable frame : FrameStyle.

Definition endl : string := String newline "".

(** [line.plain.size()] for the widest line; sizes stay below
    [std::string::max_size()], so the sum with 2 does not wrap. *)
Definition maxWidth (lines : list StyledLine) : nat :=
  fold_left (fun width line => Nat.max width (String.length (plain line)))
    lines 0%nat.

Definition printFramedLines (lines : list StyledLine) : list string :=
  let borderColor := ansi MenuBorder in
  let resetColor := ansi Reset in
  let width := maxWidth lines in
  let innerWidth := (width + 2)%nat in
  match vertical frame with
  | EmptyString =>
      flat_map
        (fun line =>
           match colored line with
           | EmptyString => [endl]
           | text => [text; resetColor; endl]
           end)
        lines
  | _ =>
      let top := topLeft frame +:+ repeatPattern (horizontal frame) innerWidth
                 +:+ topRight frame in
      let bottom := bottomLeft frame +:+
                    repeatPattern (horizontal frame) innerWidth +:+
                    bottomRight frame in
      [borderColor; top; resetColor; endl] ++
      flat_map
        (fun line =>
           let padding := (width - String.length (plain line))%nat in
           [borderColor; vertical frame; resetColor; " "] ++
           match colored line with
           | EmptyString => []
           | text => [text; resetColor]
           end ++
           [repeatPattern " " padding; " "; borderColor; vertical frame;
            resetColor; endl])
        lines ++
      [borderColor; bottom; resetColor; endl]
  end.

Definition reportLoadMessages (loadResult : LoadResult) : list string :=
  flat_map (fun warning => [ansi Warning; warning; endl; ansi Reset])
    (warnings loadResult) ++
  match missingPrerequisites loadResult with
  | [] =>
      [ansi Success; "All prerequisites found in the loaded catalog." +:+ endl;
       ansi Reset]
  | missing =>
      flat_map
        (fun m =>
           [ansi Warning; "Prerequisite missing from catalog: "; m; endl;
            ansi Reset])
        missing
  end.

(** The vector [lines] that [printAllCourses] builds. *)
Definition courseLine (course : Course) : StyledLine :=
  let text := courseNumber course +:+ ", " +:+ courseName course in
  {| plain := text; colored := ansi MenuText +:+ text |}.

Definition courseListLines (st : Session) : list StyledLine :=
  {| plain := "Course List"; colored := ansi MenuTitle +:+ "Course List" |} ::
  {| plain := ""; colored := "" |} ::
  flat_map
    (fun courseId =>
       match get (courseCatalog st) courseId with
       | None => []
       | Some course => [courseLine course]
       end)
    (ids (courseCatalog st)).

Definition printAllCourses (st : Session) : list string :=
  match ids (courseCatalog st) with
  | [] => [ansi Warning; "No courses available to display." +:+ endl;
           ansi Reset]
  | _ => [endl] ++ printFramedLines (courseListLines st) ++ [endl]
  end.

Definition printCourseDetails (st : Session) (courseDetails : Course)
    : list string :=
  [ansi MenuTitle; courseNumber courseDetails; ansi Reset; ", ";
   courseName courseDetails; endl] ++
  match prerequisites courseDetails with
  | [] => [ansi Info; "Prerequisites: none" +:+ endl; ansi Reset]
  | prereqs =>
      [ansi MenuBorder; "Prerequisites:" +:+ endl; ansi Reset] ++
      flat_map
        (fun prereqId =>
           [ansi MenuNumber; "  "; prereqId; ansi Reset] ++
           match get (courseCatalog st) prereqId with
           | Some prereq => [" - "; courseName prereq]
           | None => [" - "; ansi Warning; "(missing from catalog)";
                      ansi Reset]
           end ++ [endl])
        prereqs
  end.

(** [loadCoursesFromFile]: the value returned, what is printed, and the
    variables afterwards.  When [load] throws, the assignment to
    [lastLoadResult] does not take place and nothing is printed. *)
Definition loadCoursesFromFile (fs : FileSystem) (fileName : string)
    (st : Session) : Try bool * list string * Session :=
  match load fs fileName (courseCatalog st) with
  | (Throws, catalog') =>
      (Throws, [],
       {| loadedData := loadedData st; courseCatalog := catalog';
          lastLoadResult := lastLoadResult st;
          currentCatalogPath := currentCatalogPath st;
          advisorGuiExecutable := advisorGuiExecutable st |})
  | (Returns result, catalog') =>
      if negb (ok result) then
        (Returns false,
         flat_map (fun warning => [ansi Error; warning; endl; ansi Reset])
           (warnings result) ++
         [ansi Warning; "No courses were loaded from "; fileName; endl;
          ansi Reset],
         {| loadedData := false; courseCatalog := catalog';
            lastLoadResult := result;
            currentCatalogPath := currentCatalogPath st;
            advisorGuiExecutable := advisorGuiExecutable st |})
      else
        (Returns true,
         [ansi Success; "Loaded "; to_string (courses result);
          " courses from "; path result; endl; ansi Reset] ++
         reportLoadMessages result ++
         [ansi Success; "Courses have been loaded!" +:+ endl; ansi Reset],
         {| loadedData := true; courseCatalog := catalog';
            lastLoadResult := result;
            currentCatalogPath := path result;
            advisorGuiExecutable := advisorGuiExecutable st |})
  end.

(** [handleCourseLookup]; [typed] is the line that [std::getline] reads
    from [std::cin], or [None] when the stream has ended. *)
Definition handleCourseLookup (st : Session) (typed : option string)
    : list string :=
  [ansi Prompt; "Enter the course number: "; ansi Reset] ++
  match typed with
  | None => []
  | Some input =>
      match normalizeCourseIdInput input with
      | None =>
          [ansi Error;
           "Course number must start with letters and end with digits."
             +:+ endl;
           ansi Reset]
      | Some sanitizedId =>
          (if wasTrimmed sanitizedId
           then [ansi Info; "Searching for course: "; id sanitizedId; endl;
                 ansi Reset]
           else []) ++
          match get (courseCatalog st) (id sanitizedId) with
          | None => [ansi Error; "Course not found: "; id sanitizedId; endl;
                     ansi Reset]
          | Some locatedCourse => printCourseDetails st locatedCourse
          end
      end
  end.

(** [launchDashboard]; [system] is the exit code that [std::system]
    gives for a command. *)
Definition launchDashboard (system : string -> Z) (st : Session)
    : list string :=
  let exitCode := system (dashboardCommand st) in
  if Z.eqb exitCode 0 then []
  else [ansi Warning; "Dashboard exited with code "; int_to_string exitCode;
        endl; ansi Reset].

End Console.

End Cli.

(** ** The list model of the dashboard (models.cpp)

    Rows are [int]. A [QString] result is either the null string [{}] or
    [QString::fromStdString] of a stored identifier. *)
Module Gui.

Inductive QStringResult :=
  | Null
  | FromStdString (s : string).

Record CourseListModel := {
  courseIds : list string
}.

Definition size_as_int (model : CourseListModel) : Z :=
  to_int (Z.of_nat (length (courseIds model))).

(** [rowCount]; [parentIsValid] is [parent.isValid()]. *)
Definition rowCount (model : CourseListModel) (parentIsValid : bool) : Z :=
  if parentIsValid then 0%Z else size_as_int model.

(** [courseIds[row]]: an [int] index converts to [std::size_t] modulo
    [2^64]; indexing past the end has no defined behaviour ([None]). *)
Definition at_ (model : CourseListModel) (row : Z) : option string :=
  courseIds model !! Z.to_nat (row mod 2 ^ 64).

(** [courseIdForRow]; the answer is [None] when the indexing is out of
    range. *)
Definition courseIdForRow (model : CourseListModel) (row : Z)
    : option QStringResult :=
  if ((row <? 0) || (size_as_int model <=? row))%Z then Some Null
  else FromStdString <$> at_ model row.

Definition setCourseIds (model : CourseListModel) (ids : list string)
    : CourseListModel :=
  {| courseIds := ids |}.

End Gui.

(** ** Notions used to state further properties *)

(** Every character is one of those that [trim] removes. *)
Definition allBlank (s : string) : Prop :=
  forall ch, In ch (chars s) -> Char.inTrimSet ch = true.

(** The first character of a string. *)
Definition front (s : string) : option ascii :=
  match s with
  | EmptyString => None
  | String ch _ => Some ch
  end.

(** The text whose lines are [lines], each closed by the delimiter. *)
Definition joinLines (delim : ascii) (lines : list string) : string :=
  fold_right (fun line rest => line +:+ String delim rest) EmptyString lines.

(** A lower-case letter 'a'..'z'. *)
Definition islower (ch : ascii) : bool :=
  ((97 <=? Char.code ch) && (Char.code ch <=? 122))%N.

Definition allLetters (s : string) : Prop :=
  forall ch, In ch (chars s) -> Char.isalpha ch = true.

Definition allDigits (s : string) : Prop :=
  forall ch, In ch (chars s) -> Char.isdigit ch = true.

(** An identifier in normal form: accepted by the validator and equal to
    its own uppercase form. *)
Definition normalizedId (s : string) : Prop :=
  isCourseIdValid s = true /\ toUpper s = s.

(** A title as the loader stores it: trimmed, and free of commas. *)
Definition tidyTitle (s : string) : Prop :=
  trim s = s /\ ~ In comma (chars s).

Definition wellFormedCourse (c : Course) : Prop :=
  normalizedId (courseNumber c) /\
  tidyTitle (courseName c) /\
  NoDup (prerequisites c) /\
  forall prereq, prereq ∈ prerequisites c -> normalizedId prereq.

(** The replacement warning of line [i] (counted from 0) of a file: due
    when an earlier line has defined the same identifier. *)
Definition replacementAt (lines : list string) (i : nat) (rawLine : string)
    : list string :=
  match lineRecord rawLine with
  | Some c =>
      if decide (courseNumber c ∈ courseNumber <$> records (take i lines))
      then [replacingWarning (courseNumber c)]
      else []
  | None => []
  end.

(** All the warnings of a file, line after line, each line numbered from
    1: the messages of the line itself, then its replacement warning. *)
Definition fileMessages (lines : list string) : list string :=
  concat
    (imap (fun i rawLine =>
             lineMessages (N.of_nat (S i)) rawLine ++
             replacementAt lines i rawLine)
       lines).

(** The two courses of the example catalog. *)
Definition csci101 : Course :=
  {| courseNumber := "CSCI101"; courseName := "Programming Fundamentals";
     prerequisites := [] |}.

Definition csci200 : Course :=
  {| courseNumber := "CSCI200"; courseName := "Intro to CS";
     prerequisites := ["CSCI101"] |}.

(** The text that [normalizeCourseIdInput] scans: trimmed, uppercased and
    freed of one trailing comma. *)
Definition cleanedInput (input : string) : string :=
  Cli.removeTrailingComma (toUpper (trim input)).

(** [main] may point [advisorGuiExecutable] to a binary beside the
    program before the menu starts. *)
Definition setExecutable (executable : string) (st : Cli.Session)
    : Cli.Session :=
  {| Cli.loadedData := Cli.loadedData st;
     Cli.courseCatalog := Cli.courseCatalog st;
     Cli.lastLoadResult := Cli.lastLoadResult st;
     Cli.currentCatalogPath := Cli.currentCatalogPath st;
     Cli.advisorGuiExecutable := executable |}.

(** The values that the file-scope variables can take: those of start-up,
    then any number of calls of [loadCoursesFromFile], the only function
    that assigns them. *)
Inductive reachableSession (ansi : Cli.TextStyle -> string)
    : Cli.Session -> Prop :=
  | session_start executable :
      reachableSession ansi (setExecutable executable Cli.initialSession)
  | session_load fs fileName st :
      reachableSession ansi st ->
      reachableSession ansi (Cli.loadCoursesFromFile ansi fs fileName st).2.

(** The palette without colours and the ASCII frame of [activePalette]
    and [activeFrame]. *)
Definition plainPalette (style : Cli.TextStyle) : string := EmptyString.

Definition asciiFrame : Cli.FrameStyle :=
  {| Cli.topLeft := "+"; Cli.topRight := "+"; Cli.bottomLeft := "+";
     Cli.bottomRight := "+"; Cli.horizontal := "-"; Cli.vertical := "|" |}.

(** The session after the example file has been loaded from the menu. *)
Definition loadedSession : Cli.Session :=
  (Cli.loadCoursesFromFile plainPalette buildTree "data.csv"
     Cli.initialSession).2.

(** What the file-scope variables of the program always satisfy. *)
Definition sessionInvariant (st : Cli.Session) : Prop :=
  reachable (Cli.courseCatalog st) /\
  Cli.loadedData st = ok (Cli.lastLoadResult st) /\
  (Cli.loadedData st = true ->
     Cli.currentCatalogPath st = path (Cli.lastLoadResult st) /\
     exists fs fileName other,
       load fs fileName other =
         (Returns (Cli.lastLoadResult st), Cli.courseCatalog st)) /\
  (Cli.currentCatalogPath st = EmptyString ->
     Cli.courseCatalog st = emptyCatalog) /\
  (Cli.currentCatalogPath st <> EmptyString ->
     is_absolute (Cli.currentCatalogPath st) = true /\
     exists fs r, ok r = true /\
       forall other,
         load fs (Cli.currentCatalogPath st) other =
           (Returns r, Cli.courseCatalog st)).

(** The heading of the course list. *)
Definition courseListHeading (ansi : Cli.TextStyle -> string)
    : list Cli.StyledLine :=
  [ {| Cli.plain := "Course List";
       Cli.colored := ansi Cli.MenuTitle +:+ "Course List" |};
    {| Cli.plain := ""; Cli.colored := "" |} ].

(** The text that a sequence of [<<] operands leaves on the stream. *)
Definition written (chunks : list string) : string :=
  fold_right String.append EmptyString chunks.

(** The rows of an ASCII frame around [lines], without colours. *)
Definition frameEdge (width : nat) : string :=
  "+" +:+ Cli.repeatPattern "-" (width + 2) +:+ "+".

Definition frameRow (width : nat) (line : Cli.StyledLine) : string :=
  "| " +:+ Cli.plain line +:+
  Cli.repeatPattern " " (width - String.length (Cli.plain line)) +:+ " |".

Definition frameRows (lines : list Cli.StyledLine) : list string :=
  frameEdge (Cli.maxWidth lines) ::
  (frameRow (Cli.maxWidth lines) <$> lines) ++
  [frameEdge (Cli.maxWidth lines)].

(** A line as the menu builds it when colours are off: the coloured text
    is the plain text; and the plain text holds no line feed. *)
Definition plainLine (line : Cli.StyledLine) : Prop :=
  Cli.colored line = Cli.plain line /\ ~ In newline (chars (Cli.plain line)).
(** ** Facts about the character classes *)

Lemma isalpha_not_isdigit ch : Char.isalpha ch = true -> Char.isdigit ch = false.
Proof.
  unfold Char.isalpha, Char.isdigit. cbv zeta.
  generalize (Char.code ch). intros n H.
  destruct (N.leb_spec 48 n), (N.leb_spec n 57); simpl; try reflexivity.
  destruct (N.leb_spec 65 n), (N.leb_spec n 90), (N.leb_spec 97 n),
    (N.leb_spec n 122); simpl in H; try discriminate; lia.
Qed.

Lemma get_In (n : nat) s ch : String.get n s = Some ch -> In ch (chars s).
Proof.
  revert n. induction s as [|c s IH]; intros [|n] H; simpl in *;
    try discriminate.
  - left. congruence.
  - right. eauto.
Qed.

Lemma In_get s ch : In ch (chars s) -> exists n : nat, String.get n s = Some ch.
Proof.
  induction s as [|c s IH]; simpl; [tauto|].
  intros [->|H].
  - exists 0%nat. reflexivity.
  - destruct (IH H) as [n Hn]. exists (S n). exact Hn.
Qed.

(** What the scanning loop accepts, for any value of its two flags. *)
Lemma scanCourseId_spec s : forall hasLetter hasDigit,
  scanCourseId hasLetter hasDigit s = true <->
  (forall ch, In ch (chars s) ->
     Char.isalpha ch = true \/ Char.isdigit ch = true) /\
  (hasLetter = true \/ exists ch, In ch (chars s) /\ Char.isalpha ch = true) /\
  (hasDigit = true \/ exists ch, In ch (chars s) /\ Char.isdigit ch = true) /\
  (hasDigit = true -> forall ch, In ch (chars s) -> Char.isalpha ch = false) /\
  (forall (i j : nat) ci cj, (i < j)%nat ->
     String.get i s = Some ci -> String.get j s = Some cj ->
     Char.isdigit ci = true -> Char.isalpha cj = false).
Proof.
  induction s as [|c s IH]; intros hl hd; simpl.
  - rewrite andb_true_iff. split.
    + intros [-> ->]. repeat split; auto; try tauto; intros; discriminate.
    + intros (_ & [?|(? & [] & _)] & [?|(? & [] & _)] & _); auto.
  - destruct (Char.isalpha c) eqn:Ha.
    + pose proof (isalpha_not_isdigit _ Ha) as Hd.
      destruct hd.
      * split; [discriminate|]. intros (_ & _ & _ & H & _).
        specialize (H eq_refl c (or_introl eq_refl)). congruence.
      * rewrite IH. split.
        -- intros (H1 & _ & H3 & _ & H5). repeat split.
           ++ intros ch [<-|Hin]; auto.
           ++ right. exists c. auto.
           ++ destruct H3 as [?|(ch & Hin & Hch)]; [discriminate|].
              right. exists ch. auto.
           ++ discriminate.
           ++ intros [|i] [|j] ci cj Hlt Hi Hj Hdi; simpl in *; try lia.
              ** congruence.
              ** eapply (H5 i j); eauto. lia.
        -- intros (H1 & _ & H3 & _ & H5). repeat split.
           ++ intros ch Hin. apply H1. auto.
           ++ auto.
           ++ destruct H3 as [?|(ch & [<-|Hin] & Hch)]; [discriminate|congruence|].
              right. exists ch. auto.
           ++ discriminate.
           ++ intros i j ci cj Hlt Hi Hj Hdi.
              apply (H5 (S i) (S j) ci cj); simpl; auto. lia.
    + destruct (Char.isdigit c) eqn:Hd.
      * rewrite IH. split.
        -- intros (H1 & H2 & _ & H4 & H5). repeat split.
           ++ intros ch [<-|Hin]; auto.
           ++ destruct H2 as [?|(ch & Hin & Hch)]; auto.
              right. exists ch. auto.
           ++ right. exists c. auto.
           ++ intros _ ch [<-|Hin]; auto.
           ++ intros [|i] [|j] ci cj Hlt Hi Hj Hdi; simpl in *; try lia.
              ** apply H4; auto. eapply get_In; eauto.
              ** eapply (H5 i j); eauto. lia.
        -- intros (H1 & H2 & _ & H4 & H5). repeat split.
           ++ intros ch Hin. apply H1. auto.
           ++ destruct H2 as [?|(ch & [<-|Hin] & Hch)]; auto; [congruence|].
              right. exists ch. auto.
           ++ auto.
           ++ intros _ ch Hin. destruct (In_get _ _ Hin) as [n Hn].
              apply (H5 0%nat (S n) c ch); simpl; auto. lia.
           ++ intros i j ci cj Hlt Hi Hj Hdi.
              apply (H5 (S i) (S j) ci cj); simpl; auto. lia.
      * split; [discriminate|]. intros (H1 & _).
        destruct (H1 c (or_introl eq_refl)); congruence.
Qed.

(** ** The identifier validator (claim C2) *)

(** C2: [isCourseIdValid] is a total boolean function, and it answers true
    exactly for the tokens that are non-empty, made of letters and digits
    only, with at least one letter and one digit and no letter after a
    digit; every other token is answered false. *)
Theorem isCourseIdValid_correct (token : string) :
  (isCourseIdValid token = true <-> lettersThenDigits token) /\
  (isCourseIdValid token = false <-> ~ lettersThenDigits token).
Proof.
  assert (Hiff : isCourseIdValid token = true <-> lettersThenDigits token).
  { unfold lettersThenDigits. destruct token as [|c s].
    - simpl. split; [discriminate|]. intros [H _]. congruence.
    - change (isCourseIdValid (String c s)) with
        (scanCourseId false false (String c s)).
      rewrite scanCourseId_spec. split.
      + intros (H1 & [?|H2] & [?|H3] & _ & H5); try discriminate.
        repeat split; auto; discriminate.
      + intros (_ & H1 & H2 & H3 & H5). repeat split; auto; discriminate. }
  split; [exact Hiff|].
  rewrite <- Hiff. destruct (isCourseIdValid token); split; intros;
    congruence.
Qed.

(** The tokens of the specification's examples. *)
Example isCourseIdValid_examples :
  isCourseIdValid "CSCI200" = true /\
  isCourseIdValid "csci200" = true /\
  isCourseIdValid "200CSCI" = false /\
  isCourseIdValid "" = false /\
  isCourseIdValid "CSCI" = false /\
  isCourseIdValid "200" = false /\
  isCourseIdValid "CS-200" = false /\
  isCourseIdValid "CS200A" = false.
Proof. repeat split. Qed.

(** ** Path resolution *)

Lemma is_absolute_pathAppend dir requested :
  is_absolute (pathAppend dir requested) = true.
Proof.
  unfold pathAppend. destruct (is_absolute requested) eqn:Habs; [exact Habs|].
  destruct dir; reflexivity.
Qed.

Lemma pathAppend_absolute dir p : is_absolute p = true -> pathAppend dir p = p.
Proof. unfold pathAppend. intros ->. reflexivity. Qed.

Lemma absolute_of_absolute fs p :
  is_absolute p = true -> absolute fs p = Returns p.
Proof.
  intros H. unfold absolute. rewrite H. destruct p; [discriminate|reflexivity].
Qed.

(** The three ways [fs::exists] ends. *)
Lemma exists_cases fs p :
  (exists_ fs p = Throws /\ statusFails fs (systemPath fs p) = true) \/
  (exists_ fs p = Returns true /\ present fs (systemPath fs p)) \/
  (exists_ fs p = Returns false /\ absent fs (systemPath fs p)).
Proof.
  unfold exists_, present, absent.
  destruct (statusFails fs (systemPath fs p)); [left; auto|right].
  destruct (node fs (systemPath fs p)); [left|right]; repeat split; congruence.
Qed.

Lemma present_not_absent fs p : present fs p -> absent fs p -> False.
Proof. intros [_ H1] [_ H2]. auto. Qed.

Lemma present_answers fs p : present fs p -> statusFails fs p = true -> False.
Proof. intros [H1 _] H2. congruence. Qed.

Lemma absent_answers fs p : absent fs p -> statusFails fs p = true -> False.
Proof. intros [H1 _] H2. congruence. Qed.

Lemma ancestor_S k dir : ancestor (S k) dir = ancestor k (parent_path dir).
Proof. unfold ancestor. induction k; simpl in *; congruence. Qed.

(** The parent search, iteration by iteration: it stops at the first of
    the [remaining] next candidates that is not absent, with this
    candidate when it exists and with an exception when its status query
    fails. *)
Lemma searchParents_spec fs requested : forall remaining searchDir,
  match searchParents fs requested searchDir remaining with
  | Returns (Some p) =>
      exists k, (k < remaining)%nat /\
        p = pathAppend (ancestor k searchDir) requested /\
        present fs p /\
        forall j, (j < k)%nat ->
          absent fs (pathAppend (ancestor j searchDir) requested)
  | Returns None =>
      forall k, (k < remaining)%nat ->
        absent fs (pathAppend (ancestor k searchDir) requested)
  | Throws =>
      exists k, (k < remaining)%nat /\
        statusFails fs (pathAppend (ancestor k searchDir) requested) = true /\
        forall j, (j < k)%nat ->
          absent fs (pathAppend (ancestor j searchDir) requested)
  end.
Proof.
  induction remaining as [|n IH]; intros dir; simpl.
  - intros k Hk. lia.
  - pose proof (exists_cases fs (pathAppend dir requested)) as Hex.
    unfold systemPath in Hex.
    rewrite (pathAppend_absolute (workingDirectory fs)
               (pathAppend dir requested)) in Hex
      by apply is_absolute_pathAppend.
    destruct Hex as [[-> Hfail]|[[-> Hpres]|[-> Habsent]]].
    + exists 0%nat. split; [lia|]. split; [exact Hfail|intros j Hj; lia].
    + rewrite absolute_of_absolute by apply is_absolute_pathAppend. simpl.
      exists 0%nat. split; [lia|]. split; [reflexivity|].
      split; [exact Hpres|intros j Hj; lia].
    + specialize (IH (parent_path dir)).
      destruct (searchParents fs requested (parent_path dir) n) as [[p|]|].
      * destruct IH as (k & Hk & -> & Hn & Hfirst). exists (S k).
        rewrite ancestor_S. split; [lia|]. split; [reflexivity|].
        split; [exact Hn|].
        intros [|j] Hj; [exact Habsent|]. rewrite ancestor_S. apply Hfirst. lia.
      * intros [|k] Hk; [exact Habsent|]. rewrite ancestor_S. apply IH. lia.
      * destruct IH as (k & Hk & Hfail & Hfirst). exists (S k).
        rewrite ancestor_S. split; [lia|]. split; [exact Hfail|].
        intros [|j] Hj; [exact Habsent|]. rewrite ancestor_S. apply Hfirst. lia.
Qed.

(** An absolute name: one status query decides. *)
Lemma resolve_absolute fs fileName :
  is_absolute fileName = true ->
  resolveCourseFilePath fs fileName =
    if statusFails fs fileName then Throws
    else match node fs fileName with
         | Some _ => Returns (Some fileName)
         | None => Returns None
         end.
Proof.
  intros Habs. unfold resolveCourseFilePath.
  destruct fileName as [|c s]; [discriminate|].
  rewrite Habs, absolute_of_absolute by assumption.
  unfold exists_, systemPath. rewrite pathAppend_absolute by assumption.
  destruct (statusFails fs (String c s)); [reflexivity|].
  destruct (node fs (String c s)); reflexivity.
Qed.

(** A relative name, when the current directory can be reported: the
    candidates are queried nearest first, and the first that is not
    absent decides. *)
Lemma resolve_relative fs fileName :
  fileName <> EmptyString -> is_absolute fileName = false ->
  cwdAvailable fs = true ->
  match resolveCourseFilePath fs fileName with
  | Returns (Some p) =>
      exists k, (k < kMaxParentSearchDepth)%nat /\
        p = candidate fs fileName k /\ present fs p /\
        forall j, (j < k)%nat -> absent fs (candidate fs fileName j)
  | Returns None =>
      forall k, (k < kMaxParentSearchDepth)%nat ->
        absent fs (candidate fs fileName k)
  | Throws =>
      exists k, (k < kMaxParentSearchDepth)%nat /\
        statusFails fs (candidate fs fileName k) = true /\
        forall j, (j < k)%nat -> absent fs (candidate fs fileName j)
  end.
Proof.
  intros Hne Hrel Hcwd. unfold resolveCourseFilePath.
  destruct fileName as [|c s]; [congruence|]. rewrite Hrel.
  set (name := String c s) in *.
  assert (Hzero : systemPath fs name = candidate fs name 0) by reflexivity.
  assert (Hpos : (0 < kMaxParentSearchDepth)%nat)
    by (unfold kMaxParentSearchDepth; lia).
  destruct (exists_cases fs name) as [[-> Hfail]|[[-> Hpres]|[-> Habsent]]].
  - exists 0%nat. rewrite <- Hzero. split; [exact Hpos|].
    split; [exact Hfail|]. intros j Hj. lia.
  - unfold absolute, current_path. subst name. rewrite Hrel, Hcwd. simpl.
    exists 0%nat. split; [exact Hpos|]. split; [reflexivity|].
    split; [exact Hpres|]. intros j Hj. lia.
  - unfold current_path. rewrite Hcwd.
    apply (searchParents_spec fs name kMaxParentSearchDepth
             (workingDirectory fs)).
Qed.

(** A relative name, when the current directory cannot be reported: every
    way through the function ends in a call that throws. *)
Lemma resolve_relative_no_cwd fs fileName :
  fileName <> EmptyString -> is_absolute fileName = false ->
  cwdAvailable fs = false ->
  resolveCourseFilePath fs fileName = Throws.
Proof.
  intros Hne Hrel Hcwd. unfold resolveCourseFilePath.
  destruct fileName as [|c s]; [congruence|]. rewrite Hrel.
  unfold absolute, current_path. rewrite Hrel, Hcwd.
  destruct (exists_ fs (String c s)) as [[|]|]; reflexivity.
Qed.

(** Whatever [resolveCourseFilePath] answers is absolute and exists. *)
Lemma resolveCourseFilePath_Some fs fileName p :
  resolveCourseFilePath fs fileName = Returns (Some p) ->
  is_absolute p = true /\ present fs p.
Proof.
  intros Hres.
  destruct fileName as [|c s] eqn:Hname; [discriminate|]. rewrite <- Hname in *.
  assert (Hne : fileName <> EmptyString) by (subst; discriminate).
  destruct (is_absolute fileName) eqn:Habs.
  - rewrite resolve_absolute in Hres by assumption. unfold present.
    destruct (statusFails fs fileName) eqn:Hfail; [discriminate|].
    destruct (node fs fileName) eqn:Hnode; [|discriminate].
    injection Hres as <-. repeat split; congruence.
  - destruct (cwdAvailable fs) eqn:Hcwd.
    + pose proof (resolve_relative fs fileName Hne Habs Hcwd) as H.
      rewrite Hres in H. destruct H as (k & _ & -> & Hpres & _).
      split; [apply is_absolute_pathAppend|exact Hpres].
    + rewrite resolve_relative_no_cwd in Hres by assumption. discriminate.
Qed.

(** ** The branches of [load] *)

Lemma load_not_located fs fileName self :
  fileName <> EmptyString ->
  resolveCourseFilePath fs fileName = Returns None ->
  load fs fileName self =
    (Returns (failure ("Unable to locate file: " +:+ fileName) fileName), self).
Proof.
  intros Hne Hres. unfold load. destruct fileName; [congruence|].
  rewrite Hres. reflexivity.
Qed.

Lemma load_thrown fs fileName self :
  resolveCourseFilePath fs fileName = Throws ->
  load fs fileName self = (Throws, self).
Proof.
  intros Hres. unfold load. destruct fileName; [discriminate|].
  rewrite Hres. reflexivity.
Qed.

(** Once the name is resolved, [load] opens the resolved path and no
    other. *)
Lemma load_resolved fs fileName self p :
  resolveCourseFilePath fs fileName = Returns (Some p) ->
  load fs fileName self = openedAt fs p self.
Proof.
  intros Hres. unfold load, openedAt, loadedFrom.
  destruct fileName; [discriminate|]. rewrite Hres.
  destruct (node fs p) as [[content|]|]; try reflexivity.
  cbv zeta. destruct (decide _); reflexivity.
Qed.

Lemma load_not_opened fs fileName self p :
  resolveCourseFilePath fs fileName = Returns (Some p) ->
  (forall content, node fs p <> Some (Readable content)) ->
  load fs fileName self =
    (Returns (failure ("Unable to open file: " +:+ p) p), self).
Proof.
  intros Hres Hnode. unfold load.
  destruct fileName; [discriminate|]. rewrite Hres.
  destruct (node fs p) as [[content|]|]; try reflexivity.
  destruct (Hnode content eq_refl).
Qed.

Lemma load_opened fs fileName self p content :
  resolveCourseFilePath fs fileName = Returns (Some p) ->
  node fs p = Some (Readable content) ->
  load fs fileName self =
    let st := parseFile content in
    let loaded := loadedCourseDirectory st in
    if decide (loaded = ∅) then
      (Returns
         {| ok := false; courses := 0; warnings := collected st;
            missingPrerequisites := []; path := p |}, self)
    else
      (Returns
         {| ok := true; courses := N.of_nat (size loaded);
            warnings := collected st;
            missingPrerequisites := collectMissing loaded; path := p |},
       {| courseDirectory := loaded;
          sortedCourseIds := buildSortedIds loaded |}).
Proof.
  intros Hres Hnode. unfold load.
  destruct fileName; [discriminate|]. rewrite Hres, Hnode. reflexivity.
Qed.

(** The ways a call can go, as one case analysis. *)
Lemma load_cases fs fileName :
  (fileName = EmptyString) \/
  (fileName <> EmptyString /\ resolveCourseFilePath fs fileName = Throws) \/
  (fileName <> EmptyString /\
     resolveCourseFilePath fs fileName = Returns None) \/
  (exists p, resolveCourseFilePath fs fileName = Returns (Some p) /\
     forall content, node fs p <> Some (Readable content)) \/
  (exists p content, resolveCourseFilePath fs fileName = Returns (Some p) /\
     node fs p = Some (Readable content)).
Proof.
  destruct fileName as [|c s]; [left; reflexivity|right].
  destruct (resolveCourseFilePath fs (String c s)) as [[p|]|] eqn:Hres.
  - right. right. destruct (node fs p) as [[content|]|] eqn:Hnode.
    + right. exists p, content. auto.
    + left. exists p. split; [reflexivity|]. congruence.
    + left. exists p. split; [reflexivity|]. congruence.
  - right. left. split; [discriminate|reflexivity].
  - left. split; [discriminate|reflexivity].
Qed.

(** Opening a path always returns, and reports the path opened. *)
Lemma openedAt_returns fs p self :
  exists r, (openedAt fs p self).1 = Returns r /\ path r = p.
Proof.
  unfold openedAt, loadedFrom.
  destruct (node fs p) as [[content|]|]; simpl;
    [destruct (decide _)|..]; eexists; split; reflexivity.
Qed.

(** ** Empty file name (claim C9) *)

(** C9: [load] called with the empty string answers [ok = false],
    [courses = 0], the single warning "File name is empty.", no missing
    prerequisite and an empty path, whatever the file system holds, and
    leaves the catalog as it was. *)
Theorem load_empty_file_name (fs : FileSystem) (self : Catalog) :
  load fs "" self =
    (Returns
       {| ok := false; courses := 0; warnings := ["File name is empty."];
          missingPrerequisites := []; path := "" |}, self).
Proof. reflexivity. Qed.

(** ** The path reported by a failed load (claim C10) *)

(** C10: for a non-empty file name, when the resolution ends without a
    file ([std::nullopt]) the call returns a result with [ok = false]
    whose path is the file name as given; when the file is located at
    [p] but cannot be opened the call returns a result with [ok = false]
    whose path is [p], the absolute path that was resolved.  In file
    system terms the first case is: an absolute name that is absent, or
    a relative name absent from the ten directories searched; the second
    is a name found there that the stream cannot open. *)
Theorem load_failed_path (fs : FileSystem) (fileName : string) (self : Catalog)
    (Hname : fileName <> EmptyString) :
  (resolveCourseFilePath fs fileName = Returns None ->
     exists r, (load fs fileName self).1 = Returns r /\
       ok r = false /\ path r = fileName) /\
  (forall p, resolveCourseFilePath fs fileName = Returns (Some p) ->
     (forall content, node fs p <> Some (Readable content)) ->
     exists r, (load fs fileName self).1 = Returns r /\
       ok r = false /\ path r = p /\ is_absolute p = true) /\
  (is_absolute fileName = true -> absent fs fileName ->
     resolveCourseFilePath fs fileName = Returns None) /\
  (is_absolute fileName = false -> cwdAvailable fs = true ->
     (forall k, (k < kMaxParentSearchDepth)%nat ->
        absent fs (candidate fs fileName k)) ->
     resolveCourseFilePath fs fileName = Returns None) /\
  (is_absolute fileName = true -> node fs fileName = Some Unreadable ->
     statusFails fs fileName = false ->
     resolveCourseFilePath fs fileName = Returns (Some fileName)).
Proof.
  split; [|split; [|split; [|split]]].
  - intros Hres. rewrite load_not_located by assumption.
    eexists. repeat split.
  - intros p Hres Hnode. rewrite (load_not_opened _ _ _ p) by assumption.
    eexists. repeat split. apply (resolveCourseFilePath_Some _ _ _ Hres).
  - intros Habs [Hst Hnode]. rewrite resolve_absolute by assumption.
    rewrite Hst, Hnode. reflexivity.
  - intros Hrel Hcwd Hall.
    pose proof (resolve_relative fs fileName Hname Hrel Hcwd) as H.
    destruct (resolveCourseFilePath fs fileName) as [[p|]|]; [|reflexivity|].
    + destruct H as (k & Hk & -> & Hpres & _).
      destruct (present_not_absent _ _ Hpres (Hall k Hk)).
    + destruct H as (k & Hk & Hfail & _).
      destruct (absent_answers _ _ (Hall k Hk) Hfail).
  - intros Habs Hnode Hst. rewrite resolve_absolute by assumption.
    rewrite Hst, Hnode. reflexivity.
Qed.

Lemma load_failed_path_witness :
  (exists r, (load buildTree "nowhere.csv" emptyCatalog).1 = Returns r /\
     ok r = false /\ path r = "nowhere.csv") /\
  (exists r, (load buildTree "locked.csv" emptyCatalog).1 = Returns r /\
     ok r = false /\ path r = "/proj/build/locked.csv" /\
     is_absolute "/proj/build/locked.csv" = true).
Proof.
  split.
  - refine (proj1 (load_failed_path buildTree "nowhere.csv"
      emptyCatalog _) _).
    + discriminate.
    + reflexivity.
  - refine (proj1 (proj2 (load_failed_path buildTree "locked.csv"
      emptyCatalog _)) "/proj/build/locked.csv" _ _).
    + discriminate.
    + reflexivity.
    + intros content. vm_compute. discriminate.
Defined.

(** ** Where [load] looks for the file (claim C3) *)




(** ** The order on strings, [std::set] and [std::sort] *)

Lemma compare_refl s : String.compare s s = Eq.
Proof.
  induction s as [|c s IH]; simpl; [reflexivity|].
  unfold Ascii.compare. rewrite N.compare_refl. exact IH.
Qed.

Lemma compare_Eq s1 s2 : String.compare s1 s2 = Eq <-> s1 = s2.
Proof.
  split; [apply String.compare_eq_iff|]. intros ->. apply compare_refl.
Qed.

Lemma compare_Gt s1 s2 : String.compare s1 s2 = Gt <-> String_lt s2 s1.
Proof.
  unfold String_lt. rewrite (String.compare_antisym s2 s1).
  destruct (String.compare s1 s2); simpl; split; congruence.
Qed.

Lemma String_lt_le s1 s2 : String_lt s1 s2 <-> String.le s1 s2 /\ s1 <> s2.
Proof.
  unfold String_lt, String.le, String.leb. rewrite <- compare_Eq.
  destruct (String.compare s1 s2); simpl; intuition congruence.
Qed.

Lemma String_lt_irrefl s : ~ String_lt s s.
Proof. unfold String_lt. rewrite compare_refl. discriminate. Qed.

Lemma String_lt_trans s1 s2 s3 :
  String_lt s1 s2 -> String_lt s2 s3 -> String_lt s1 s3.
Proof.
  rewrite !String_lt_le. intros [H12 Hne12] [H23 Hne23]. split.
  - etrans; eauto.
  - intros ->. apply Hne12. apply (anti_symm String.le); assumption.
Qed.

Lemma String_lt_asym s1 s2 : String_lt s1 s2 -> ~ String_lt s2 s1.
Proof.
  intros H12 H21. apply (String_lt_irrefl s1). eapply String_lt_trans; eauto.
Qed.

Lemma isSet_NoDup s : isSet s -> NoDup s.
Proof.
  induction 1 as [|x l Hl IH Hall]; constructor; auto.
  intros Hin. rewrite Forall_forall in Hall.
  apply (String_lt_irrefl x). apply Hall. exact Hin.
Qed.

Lemma set_insert_elem x s y : y ∈ (set_insert x s).1 <-> y = x \/ y ∈ s.
Proof.
  induction s as [|z s IH]; simpl.
  - rewrite list_elem_of_singleton. set_solver.
  - destruct (String.compare x z) eqn:Hc.
    + apply compare_Eq in Hc as ->. simpl. set_solver.
    + simpl. set_solver.
    + destruct (set_insert x s) as [rest fresh]. simpl in *. set_solver.
Qed.

Lemma set_insert_isSet x s : isSet s -> isSet (set_insert x s).1.
Proof.
  unfold isSet. induction 1 as [|z s Hs IH Hall]; simpl.
  - repeat constructor.
  - destruct (String.compare x z) eqn:Hc; simpl.
    + constructor; assumption.
    + constructor; [constructor; assumption|].
      constructor; [exact Hc|].
      eapply Forall_impl; [exact Hall|]. intros y Hy.
      eapply String_lt_trans; eauto.
    + pose proof (set_insert_elem x s) as Hel.
      destruct (set_insert x s) as [rest fresh]. simpl in *.
      constructor; [exact IH|]. rewrite Forall_forall in *.
      intros y Hy. apply Hel in Hy as [->|Hy]; [|auto].
      apply compare_Gt. exact Hc.
Qed.

(** The flag of [insert] tells whether the element was absent. *)
Lemma set_insert_fresh x s : isSet s -> (set_insert x s).2 = true <-> x ∉ s.
Proof.
  unfold isSet. induction 1 as [|z s Hs IH Hall]; simpl.
  - split; [intros _; apply not_elem_of_nil|reflexivity].
  - destruct (String.compare x z) eqn:Hc; simpl.
    + apply compare_Eq in Hc as ->. split; [discriminate|].
      intros Hn. destruct Hn. left.
    + split; [intros _|reflexivity]. rewrite Forall_forall in Hall.
      intros Hin. apply elem_of_cons in Hin as [->|Hin].
      * revert Hc. apply String_lt_irrefl.
      * apply (String_lt_asym x z Hc). auto.
    + destruct (set_insert x s) as [rest fresh]. simpl in *.
      rewrite IH, not_elem_of_cons. split; [|tauto].
      intros Hn. split; [|exact Hn]. intros ->.
      rewrite compare_refl in Hc. discriminate.
Qed.

(** A set that already holds the element is returned as it is. *)
Lemma set_insert_present x s : isSet s -> x ∈ s -> (set_insert x s).1 = s.
Proof.
  unfold isSet. induction 1 as [|z s Hs IH Hall]; simpl.
  - intros Hin. inversion Hin.
  - intros Hin. destruct (String.compare x z) eqn:Hc; simpl.
    + reflexivity.
    + exfalso. rewrite Forall_forall in Hall.
      apply elem_of_cons in Hin as [->|Hin].
      * revert Hc. apply String_lt_irrefl.
      * apply (String_lt_asym x z Hc). auto.
    + destruct (set_insert x s) as [rest fresh]. simpl in *.
      apply elem_of_cons in Hin as [->|Hin].
      * rewrite compare_refl in Hc. discriminate.
      * rewrite IH by assumption. reflexivity.
Qed.

(** [std::sort] on distinct strings: the strictly increasing arrangement
    of the same elements, and the only one. *)
Lemma sort_elem v x : x ∈ sort v <-> x ∈ v.
Proof. unfold sort. rewrite merge_sort_Permutation. reflexivity. Qed.

Lemma sort_isSet v : NoDup v -> isSet (sort v).
Proof.
  intros Hnd. unfold isSet, sort.
  assert (Hnd' : NoDup (merge_sort String.le v))
    by (rewrite merge_sort_Permutation; exact Hnd).
  pose proof (StronglySorted_merge_sort String.le v) as Hs.
  induction Hs as [|x l Hl IH Hall]; constructor.
  - apply IH. apply NoDup_cons_1_2 in Hnd'. exact Hnd'.
  - apply NoDup_cons in Hnd' as [Hx _]. rewrite Forall_forall in *.
    intros y Hy. apply String_lt_le. split; [auto|]. intros ->. auto.
Qed.

Lemma isSet_unique l1 l2 :
  isSet l1 -> isSet l2 -> (forall x, x ∈ l1 <-> x ∈ l2) -> l1 = l2.
Proof.
  intros H1 H2 Heq.
  apply (StronglySorted_unique_strong String_lt); try assumption.
  - intros x1 x2 _ _ H12 H21. destruct (String_lt_asym _ _ H12 H21).
  - apply NoDup_Permutation; auto using isSet_NoDup.
Qed.

(** ** The prerequisite loop *)

Lemma toUpper_nonempty c s : toUpper (String c s) <> EmptyString.
Proof. discriminate. Qed.

(** The four outcomes of one iteration. *)
Lemma prereqStep_empty owner st : prereqStep owner st "" = st.
Proof. reflexivity. Qed.

Lemma prereqStep_invalid owner st column :
  column <> EmptyString -> isCourseIdValid (toUpper column) = false ->
  prereqStep owner st column =
    {| seenPrereqs := seenPrereqs st; accepted := accepted st;
       prereqWarnings :=
         prereqWarnings st ++ [invalidPrereqWarning column owner] |}.
Proof.
  intros Hne Hinv. destruct column; [congruence|].
  unfold prereqStep. rewrite Hinv. reflexivity.
Qed.

Lemma prereqStep_duplicate owner st column :
  prereqInvariant st ->
  isCourseIdValid (toUpper column) = true ->
  toUpper column ∈ accepted st ->
  prereqStep owner st column =
    {| seenPrereqs := seenPrereqs st; accepted := accepted st;
       prereqWarnings :=
         prereqWarnings st ++ [duplicatePrereqWarning (toUpper column) owner] |}.
Proof.
  intros (Hset & Hsync & _) Hvalid Hin. destruct column; [discriminate|].
  unfold prereqStep. rewrite Hvalid. simpl negb. cbv iota.
  apply Hsync in Hin.
  pose proof (set_insert_fresh (toUpper (String a column)) _ Hset) as Hfresh.
  pose proof (set_insert_present _ _ Hset Hin) as Hsame.
  destruct (set_insert _ _) as [seen' fresh]. simpl in *. subst seen'.
  destruct fresh; [|reflexivity]. destruct (proj1 Hfresh eq_refl Hin).
Qed.

Lemma prereqStep_new owner st column :
  prereqInvariant st ->
  isCourseIdValid (toUpper column) = true ->
  toUpper column ∉ accepted st ->
  prereqStep owner st column =
    {| seenPrereqs := fst (set_insert (toUpper column) (seenPrereqs st));
       accepted := accepted st ++ [toUpper column];
       prereqWarnings := prereqWarnings st |}.
Proof.
  intros (Hset & Hsync & _) Hvalid Hin. destruct column; [discriminate|].
  unfold prereqStep. rewrite Hvalid. simpl negb. cbv iota.
  rewrite <- Hsync in Hin.
  pose proof (set_insert_fresh (toUpper (String a column)) _ Hset) as Hfresh.
  destruct (set_insert _ _) as [seen' fresh]. simpl in *.
  destruct fresh; [reflexivity|].
  apply Hfresh in Hin. discriminate.
Qed.

Lemma prereqStep_cases owner st column :
  prereqInvariant st ->
  (column = EmptyString /\ prereqStep owner st column = st) \/
  (column <> EmptyString /\ isCourseIdValid (toUpper column) = false /\
   prereqStep owner st column =
     {| seenPrereqs := seenPrereqs st; accepted := accepted st;
        prereqWarnings :=
          prereqWarnings st ++ [invalidPrereqWarning column owner] |}) \/
  (isCourseIdValid (toUpper column) = true /\ toUpper column ∈ accepted st /\
   prereqStep owner st column =
     {| seenPrereqs := seenPrereqs st; accepted := accepted st;
        prereqWarnings :=
          prereqWarnings st ++
          [duplicatePrereqWarning (toUpper column) owner] |}) \/
  (isCourseIdValid (toUpper column) = true /\ (toUpper column ∉ accepted st) /\
   prereqStep owner st column =
     {| seenPrereqs := fst (set_insert (toUpper column) (seenPrereqs st));
        accepted := accepted st ++ [toUpper column];
        prereqWarnings := prereqWarnings st |}).
Proof.
  intros Hinv. destruct (decide (column = EmptyString)) as [->|Hne].
  - left. auto.
  - right. destruct (isCourseIdValid (toUpper column)) eqn:Hvalid.
    + right. destruct (decide (toUpper column ∈ accepted st)) as [Hin|Hin].
      * left. auto using prereqStep_duplicate.
      * right. auto using prereqStep_new.
    + left. auto using prereqStep_invalid.
Qed.

Lemma prereqStep_invariant owner st column :
  prereqInvariant st -> prereqInvariant (prereqStep owner st column).
Proof.
  intros Hinv.
  destruct (prereqStep_cases owner st column Hinv)
    as [(_ & ->)|[(_ & _ & ->)|[(_ & _ & ->)|(_ & Hnew & ->)]]];
    try exact Hinv.
  destruct Hinv as (Hset & Hsync & Hnd). repeat split; simpl.
  - apply set_insert_isSet. exact Hset.
  - rewrite set_insert_elem, elem_of_app, list_elem_of_singleton, Hsync. tauto.
  - rewrite set_insert_elem, elem_of_app, list_elem_of_singleton, Hsync. tauto.
  - apply NoDup_app. repeat split; [exact Hnd| |apply NoDup_singleton].
    intros x Hx Hx'. apply list_elem_of_singleton in Hx' as ->. auto.
Qed.

Lemma prereqFold_invariant owner columns : forall st,
  prereqInvariant st ->
  prereqInvariant (fold_left (prereqStep owner) columns st).
Proof.
  induction columns as [|c cs IH]; intros st Hinv; simpl; [exact Hinv|].
  apply IH, prereqStep_invariant, Hinv.
Qed.

Lemma prereqInvariant_start ws :
  prereqInvariant {| seenPrereqs := []; accepted := []; prereqWarnings := ws |}.
Proof.
  repeat split; simpl; auto; try constructor.
Qed.

Lemma filter_not_in_snoc (kept l : list string) x :
  filter (fun y => y ∉ kept ++ [x]) l =
  filter (fun y => y ∉ kept) (filter (fun y => y <> x) l).
Proof.
  rewrite list_filter_filter. apply list_filter_iff. intros y.
  rewrite elem_of_app, list_elem_of_singleton. tauto.
Qed.

Lemma filter_not_in_member (kept l : list string) x :
  x ∈ kept ->
  filter (fun y => y ∉ kept) (filter (fun y => y <> x) l) =
  filter (fun y => y ∉ kept) l.
Proof.
  intros Hin. rewrite list_filter_filter. apply list_filter_iff. intros y.
  split; [tauto|]. intros Hy. split; [exact Hy|]. intros ->. auto.
Qed.

Lemma validCandidates_cons_valid column columns :
  isCourseIdValid (toUpper column) = true ->
  validCandidates (column :: columns) = toUpper column :: validCandidates columns.
Proof.
  intros Hv. unfold validCandidates. rewrite fmap_cons.
  apply filter_cons_True. exact Hv.
Qed.

Lemma validCandidates_cons_invalid column columns :
  isCourseIdValid (toUpper column) = false ->
  validCandidates (column :: columns) = validCandidates columns.
Proof.
  intros Hv. unfold validCandidates. rewrite fmap_cons.
  apply filter_cons_False. congruence.
Qed.

(** The prerequisites accepted by the loop from any state on. *)
Lemma prereqFold_accepted owner columns : forall st,
  prereqInvariant st ->
  accepted (fold_left (prereqStep owner) columns st) =
    accepted st ++
    filter (fun y => y ∉ accepted st) (firstOccurrences (validCandidates columns)).
Proof.
  induction columns as [|c cs IH]; intros st Hinv; simpl fold_left.
  - simpl. rewrite app_nil_r. reflexivity.
  - rewrite IH by (apply prereqStep_invariant; exact Hinv).
    destruct (prereqStep_cases owner st c Hinv)
      as [(-> & ->)|[(_ & Hv & ->)|[(Hv & Hin & ->)|(Hv & Hin & ->)]]]; simpl.
    + rewrite validCandidates_cons_invalid by reflexivity. reflexivity.
    + rewrite validCandidates_cons_invalid by exact Hv. reflexivity.
    + rewrite validCandidates_cons_valid by exact Hv. simpl.
      rewrite filter_cons_False by tauto.
      rewrite filter_not_in_member by exact Hin. reflexivity.
    + rewrite validCandidates_cons_valid by exact Hv. simpl.
      rewrite filter_cons_True by exact Hin.
      rewrite filter_not_in_snoc, <- app_assoc. reflexivity.
Qed.

(** The warnings added by the loop from any state on. *)
Lemma prereqFold_warnings owner columns : forall st,
  prereqInvariant st ->
  prereqWarnings (fold_left (prereqStep owner) columns st) =
    prereqWarnings st ++ prereqMessages owner (accepted st) columns.
Proof.
  induction columns as [|c cs IH]; intros st Hinv; simpl fold_left.
  - simpl. rewrite app_nil_r. reflexivity.
  - rewrite IH by (apply prereqStep_invariant; exact Hinv).
    destruct (prereqStep_cases owner st c Hinv)
      as [(-> & ->)|[(Hne & Hv & ->)|[(Hv & Hin & ->)|(Hv & Hin & ->)]]];
      simpl prereqMessages; simpl prereqWarnings; simpl accepted.
    + reflexivity.
    + rewrite decide_False by exact Hne. rewrite Hv, <- app_assoc. reflexivity.
    + assert (Hne : c <> EmptyString) by (intros ->; discriminate).
      rewrite decide_False by exact Hne.
      rewrite Hv, decide_True by exact Hin. rewrite <- app_assoc. reflexivity.
    + assert (Hne : c <> EmptyString) by (intros ->; discriminate).
      rewrite decide_False by exact Hne.
      rewrite Hv, decide_False by exact Hin. reflexivity.
Qed.

Lemma firstOccurrences_filter_nil (l : list string) :
  filter (fun y => y ∉ @nil string) l = l.
Proof.
  induction l as [|x l IH]; [reflexivity|].
  rewrite filter_cons_True by apply not_elem_of_nil. congruence.
Qed.

Lemma parsePrereqs_accepted owner ws columns :
  accepted (parsePrereqs owner ws columns) =
    firstOccurrences (validCandidates columns).
Proof.
  unfold parsePrereqs.
  rewrite prereqFold_accepted by apply prereqInvariant_start.
  simpl. apply firstOccurrences_filter_nil.
Qed.

Lemma parsePrereqs_warnings owner ws columns :
  prereqWarnings (parsePrereqs owner ws columns) =
    ws ++ prereqMessages owner [] columns.
Proof.
  unfold parsePrereqs.
  rewrite prereqFold_warnings by apply prereqInvariant_start. reflexivity.
Qed.

(** ** One line of the file *)

(** What the loop body does with a line that carries a record, and with
    one that does not. *)
Lemma processLine_record st rawLine c :
  lineRecord rawLine = Some c ->
  loadedCourseDirectory (processLine st rawLine) =
    <[courseNumber c := c]> (loadedCourseDirectory st).
Proof.
  unfold lineRecord, processLine.
  destruct (trim rawLine) as [|a line]; [discriminate|].
  destruct (trim <$> getlines comma (String a line))
    as [|c0 [|c1 others]]; try discriminate.
  destruct (isCourseIdValid (toUpper c0)); [|discriminate].
  intros [= <-]. simpl.
  rewrite !parsePrereqs_accepted. reflexivity.
Qed.

Lemma processLine_no_record st rawLine :
  lineRecord rawLine = None ->
  loadedCourseDirectory (processLine st rawLine) = loadedCourseDirectory st.
Proof.
  unfold lineRecord, processLine.
  destruct (trim rawLine) as [|a line]; [reflexivity|].
  destruct (trim <$> getlines comma (String a line))
    as [|c0 [|c1 others]]; try reflexivity.
  destruct (isCourseIdValid (toUpper c0)); [discriminate|reflexivity].
Qed.

(** ** The warnings of one line *)

Lemma append_char_inj ch s1 s2 :
  s1 +:+ String ch "" = s2 +:+ String ch "" -> s1 = s2.
Proof.
  revert s2. induction s1 as [|c s1 IH]; intros [|c' s2] H; simpl in H.
  - reflexivity.
  - injection H as _ H. destruct s2; discriminate.
  - injection H as _ H. destruct s1; discriminate.
  - injection H as -> H. f_equal. apply IH. exact H.
Qed.

Lemma replacingWarning_inj id1 id2 :
  replacingWarning id1 = replacingWarning id2 -> id1 = id2.
Proof.
  unfold replacingWarning. simpl. intros [= H]. apply (append_char_inj _ _ _ H).
Qed.

Lemma prereqMessages_not_replacing owner id fields : forall kept,
  replacingWarning id ∉ prereqMessages owner kept fields.
Proof.
  induction fields as [|f fs IH]; intros kept; simpl.
  - apply not_elem_of_nil.
  - repeat (case_decide || case_match); auto;
      apply not_elem_of_cons; (split; [discriminate|auto]).
Qed.

Lemma lineMessages_not_replacing n rawLine id :
  replacingWarning id ∉ lineMessages n rawLine.
Proof.
  unfold lineMessages.
  destruct (trim rawLine) as [|a line]; [apply not_elem_of_nil|].
  destruct (trim <$> getlines comma (String a line)) as [|c0 [|c1 others]].
  - apply not_elem_of_cons. split; [discriminate|apply not_elem_of_nil].
  - apply not_elem_of_cons. split; [discriminate|apply not_elem_of_nil].
  - destruct (isCourseIdValid (toUpper c0)).
    + apply prereqMessages_not_replacing.
    + apply not_elem_of_cons. split; [discriminate|apply not_elem_of_nil].
Qed.

(** The warnings after one line: those before, then the line's own, then
    the replacement warning when the identifier was already loaded. *)
Lemma processLine_collected st rawLine :
  collected (processLine st rawLine) =
    collected st ++
    lineMessages ((lineNumber st + 1) mod 2 ^ 64)%N rawLine ++
    match lineRecord rawLine with
    | Some c =>
        match loadedCourseDirectory st !! courseNumber c with
        | Some _ => [replacingWarning (courseNumber c)]
        | None => []
        end
    | None => []
    end.
Proof.
  unfold processLine, lineMessages, lineRecord.
  destruct (trim rawLine) as [|a line].
  - simpl. rewrite app_nil_r. reflexivity.
  - destruct (trim <$> getlines comma (String a line)) as [|c0 [|c1 others]];
      try (simpl; rewrite ?app_nil_r; reflexivity).
    destruct (isCourseIdValid (toUpper c0)); simpl.
    + rewrite parsePrereqs_warnings.
      destruct (loadedCourseDirectory st !! toUpper c0); simpl.
      * rewrite <- app_assoc. reflexivity.
      * rewrite app_nil_r. reflexivity.
    + reflexivity.
Qed.

Lemma processLine_lineNumber st rawLine :
  lineNumber (processLine st rawLine) = ((lineNumber st + 1) mod 2 ^ 64)%N.
Proof.
  unfold processLine. destruct (trim rawLine) as [|a line]; [reflexivity|].
  destruct (trim <$> getlines comma (String a line)) as [|c0 [|c1 others]];
    try reflexivity.
  destruct (isCourseIdValid (toUpper c0)); reflexivity.
Qed.

(** ** Prerequisites of one record (claim C5) *)

(** C5: for a line with a valid identifier and a title, the fields from
    the third on are handled one by one: an empty field changes nothing
    and warns of nothing; a non-empty field that fails the validator once
    uppercased is dropped with the warning naming the field and the
    owning course; a valid field already accepted for this record is
    dropped with the warning naming the duplicate and the owning course;
    any other valid field is appended, in uppercase, to the record's
    prerequisites without a warning.  So the prerequisites stored with
    the record are the first occurrences of the valid candidates, in
    encounter order and without repetition. *)
Theorem prerequisite_processing (owner : string) (ws columns : list string) :
  let result := parsePrereqs owner ws columns in
  accepted result = firstOccurrences (validCandidates columns) /\
  prereqWarnings result = ws ++ prereqMessages owner [] columns /\
  NoDup (accepted result) /\
  (forall before field after, columns = before ++ field :: after ->
     let st := parsePrereqs owner ws before in
     let st' := parsePrereqs owner ws (before ++ [field]) in
     (field = EmptyString -> st' = st) /\
     (field <> EmptyString -> isCourseIdValid (toUpper field) = false ->
        accepted st' = accepted st /\
        prereqWarnings st' =
          prereqWarnings st ++ [invalidPrereqWarning field owner]) /\
     (isCourseIdValid (toUpper field) = true -> toUpper field ∈ accepted st ->
        accepted st' = accepted st /\
        prereqWarnings st' =
          prereqWarnings st ++ [duplicatePrereqWarning (toUpper field) owner]) /\
     (isCourseIdValid (toUpper field) = true -> toUpper field ∉ accepted st ->
        accepted st' = accepted st ++ [toUpper field] /\
        prereqWarnings st' = prereqWarnings st)) /\
  (forall st rawLine column0 column1,
     trim <$> getlines comma (trim rawLine) = column0 :: column1 :: columns ->
     owner = toUpper column0 -> isCourseIdValid owner = true ->
     loadedCourseDirectory (processLine st rawLine) !! owner =
       Some {| courseNumber := owner; courseName := column1;
               prerequisites := firstOccurrences (validCandidates columns) |} /\
     collected (processLine st rawLine) =
       collected st ++ prereqMessages owner [] columns ++
       match loadedCourseDirectory st !! owner with
       | Some _ => [replacingWarning owner]
       | None => []
       end).
Proof.
  cbv zeta. split; [apply parsePrereqs_accepted|].
  split; [apply parsePrereqs_warnings|].
  assert (Hinv : forall cols, prereqInvariant (parsePrereqs owner ws cols)).
  { intros cols. apply prereqFold_invariant, prereqInvariant_start. }
  split; [apply Hinv|]. split.
  - intros before field after _.
    assert (Hstep : parsePrereqs owner ws (before ++ [field]) =
      prereqStep owner (parsePrereqs owner ws before) field).
    { unfold parsePrereqs. rewrite fold_left_app. reflexivity. }
    rewrite Hstep. specialize (Hinv before).
    repeat split.
    + intros ->. reflexivity.
    + rewrite prereqStep_invalid by assumption. reflexivity.
    + rewrite prereqStep_invalid by assumption. reflexivity.
    + rewrite prereqStep_duplicate by assumption. reflexivity.
    + rewrite prereqStep_duplicate by assumption. reflexivity.
    + rewrite prereqStep_new by assumption. reflexivity.
    + rewrite prereqStep_new by assumption. reflexivity.
  - intros st rawLine c0 c1 Hcols -> Hvalid.
    assert (Hrec : lineRecord rawLine =
      Some {| courseNumber := toUpper c0; courseName := c1;
              prerequisites := firstOccurrences (validCandidates columns) |}).
    { unfold lineRecord. destruct (trim rawLine) as [|a line];
        [discriminate|].
      rewrite Hcols, Hvalid, parsePrereqs_accepted. reflexivity. }
    split.
    + rewrite (processLine_record _ _ _ Hrec). simpl.
      apply lookup_insert_eq.
    + rewrite processLine_collected, Hrec. unfold lineMessages.
      destruct (trim rawLine) as [|a line]; [discriminate|].
      rewrite Hcols, Hvalid. reflexivity.
Qed.

(** The loop on the fields [a1, A1, b-2, (empty), c3] of course CSCI1. *)
Lemma prerequisite_processing_witness :
  accepted (parsePrereqs "CSCI1" [] ["a1"; "A1"; "b-2"; ""; "c3"]) =
    ["A1"; "C3"] /\
  prereqWarnings (parsePrereqs "CSCI1" [] ["a1"; "A1"; "b-2"; ""; "c3"]) =
    ["Duplicate prerequisite 'A1' ignored for course CSCI1.";
     "Skipping invalid prerequisite 'b-2' for course CSCI1."].
Proof.
  destruct (prerequisite_processing "CSCI1" [] ["a1"; "A1"; "b-2"; ""; "c3"])
    as (Hacc & Hws & _).
  split.
  - etrans; [exact Hacc|]. vm_compute. reflexivity.
  - etrans; [exact Hws|]. vm_compute. reflexivity.
Defined.

(** ** The whole line loop *)

Lemma records_cons rawLine lines :
  records (rawLine :: lines) =
    match lineRecord rawLine with
    | Some c => c :: records lines
    | None => records lines
    end.
Proof. reflexivity. Qed.

Lemma definitionsOf_cons id rawLine lines :
  definitionsOf id (rawLine :: lines) =
    match lineRecord rawLine with
    | Some c =>
        if decide (courseNumber c = id) then c :: definitionsOf id lines
        else definitionsOf id lines
    | None => definitionsOf id lines
    end.
Proof.
  unfold definitionsOf. rewrite records_cons.
  destruct (lineRecord rawLine) as [c|]; [|reflexivity].
  rewrite filter_cons. destruct (decide (courseNumber c = id)); reflexivity.
Qed.

Lemma definitionsOf_courseNumber id lines c :
  c ∈ definitionsOf id lines -> courseNumber c = id.
Proof. unfold definitionsOf. rewrite list_elem_of_filter. tauto. Qed.

(** Each identifier ends up bound to the record of the last line that
    defines it; an identifier that no line defines keeps what it had. *)
Lemma parse_lookup lines : forall st id,
  loadedCourseDirectory (fold_left processLine lines st) !! id =
    match last (definitionsOf id lines) with
    | Some c => Some c
    | None => loadedCourseDirectory st !! id
    end.
Proof.
  induction lines as [|l lines IH]; intros st id; simpl fold_left.
  - reflexivity.
  - rewrite IH, definitionsOf_cons.
    destruct (lineRecord l) as [c|] eqn:Hrec.
    + rewrite (processLine_record _ _ _ Hrec).
      destruct (decide (courseNumber c = id)) as [<-|Hne].
      * rewrite last_cons, lookup_insert_eq.
        destruct (last (definitionsOf (courseNumber c) lines)); reflexivity.
      * rewrite lookup_insert_ne by exact Hne. reflexivity.
    + rewrite (processLine_no_record _ _ Hrec). reflexivity.
Qed.

Lemma occurrences_app m ws1 ws2 :
  occurrences m (ws1 ++ ws2) = (occurrences m ws1 + occurrences m ws2)%nat.
Proof. unfold occurrences. rewrite filter_app, length_app. reflexivity. Qed.

Lemma occurrences_nil m : occurrences m [] = 0%nat.
Proof. reflexivity. Qed.

Lemma occurrences_absent m ws : m ∉ ws -> occurrences m ws = 0%nat.
Proof.
  unfold occurrences. induction ws as [|w ws IH]; intros Hn; [reflexivity|].
  apply not_elem_of_cons in Hn as [Hne Hn].
  rewrite filter_cons_False by congruence. auto.
Qed.

(** The replacement warnings for an identifier: one for each line that
    defines it while it is already loaded. *)
Lemma parse_replacements id lines : forall st,
  occurrences (replacingWarning id)
    (collected (fold_left processLine lines st)) =
  (occurrences (replacingWarning id) (collected st) +
   (length (definitionsOf id lines) -
    match loadedCourseDirectory st !! id with Some _ => 0 | None => 1 end))%nat.
Proof.
  induction lines as [|l lines IH]; intros st; simpl fold_left.
  - simpl. lia.
  - rewrite IH, processLine_collected, definitionsOf_cons.
    rewrite !occurrences_app.
    rewrite (occurrences_absent _ (lineMessages _ _))
      by apply lineMessages_not_replacing.
    destruct (lineRecord l) as [c|] eqn:Hrec.
    + rewrite (processLine_record _ _ _ Hrec).
      destruct (decide (courseNumber c = id)) as [<-|Hne].
      * rewrite lookup_insert_eq.
        destruct (loadedCourseDirectory st !! courseNumber c); simpl.
        -- unfold occurrences at 2. rewrite filter_cons_True by reflexivity.
           simpl. lia.
        -- rewrite occurrences_nil. lia.
      * rewrite lookup_insert_ne by exact Hne.
        rewrite (occurrences_absent _ (match _ with Some _ => _ | None => _ end)).
        -- lia.
        -- destruct (loadedCourseDirectory st !! courseNumber c);
             [|apply not_elem_of_nil].
           apply not_elem_of_cons. split; [|apply not_elem_of_nil].
           intros Heq. apply Hne. symmetry.
           apply replacingWarning_inj, Heq.
    + rewrite (processLine_no_record _ _ Hrec), occurrences_nil. lia.
Qed.

Lemma last_is_Some {A} (l : list A) : l <> [] -> is_Some (last l).
Proof.
  destruct l as [|x l] using rev_ind; [congruence|].
  intros _. rewrite last_snoc. eauto.
Qed.

Lemma parseFile_lookup content id :
  loadedCourseDirectory (parseFile content) !! id =
    last (definitionsOf id (fileLines content)).
Proof.
  unfold parseFile. rewrite parse_lookup. fold (fileLines content).
  destruct (last _); [reflexivity|]. apply lookup_empty.
Qed.

(** The identifiers loaded are those of the valid records. *)
Lemma parseFile_is_Some content id :
  is_Some (loadedCourseDirectory (parseFile content) !! id) <->
  id ∈ courseNumber <$> records (fileLines content).
Proof.
  rewrite parseFile_lookup, list_elem_of_fmap. split.
  - intros [c Hc]. exists c.
    assert (Hin : c ∈ definitionsOf id (fileLines content)).
    { apply last_Some in Hc as [l' ->]. apply elem_of_app. right. left. }
    unfold definitionsOf in Hin. apply list_elem_of_filter in Hin.
    destruct Hin as [<- Hin]. auto.
  - intros (c & -> & Hin). apply last_is_Some.
    intros Hnil.
    assert (Hc : c ∈ definitionsOf (courseNumber c) (fileLines content)).
    { unfold definitionsOf. apply list_elem_of_filter. auto. }
    rewrite Hnil in Hc. inversion Hc.
Qed.

(** Nothing is loaded exactly when the file has no valid record. *)
Lemma parseFile_empty content :
  loadedCourseDirectory (parseFile content) = ∅ <->
  records (fileLines content) = [].
Proof.
  split.
  - intros Hempty. destruct (records (fileLines content)) as [|c cs] eqn:Hrecs;
      [reflexivity|].
    assert (His : is_Some (loadedCourseDirectory (parseFile content)
                             !! courseNumber c)).
    { apply parseFile_is_Some. rewrite Hrecs. left. }
    rewrite Hempty, lookup_empty in His. destruct His; discriminate.
  - intros Hrecs. apply map_empty. intros id.
    apply eq_None_not_Some. rewrite parseFile_is_Some, Hrecs.
    apply not_elem_of_nil.
Qed.

(** Every identifier counts once in the size of the directory. *)
Lemma parseFile_size content :
  size (loadedCourseDirectory (parseFile content)) =
    length (remove_dups (courseNumber <$> records (fileLines content))).
Proof.
  rewrite <- size_dom.
  rewrite <- (size_list_to_set (C := gset string)) by apply NoDup_remove_dups.
  f_equal. apply set_eq. intros id.
  rewrite elem_of_dom, parseFile_is_Some, elem_of_list_to_set,
    elem_of_remove_dups. reflexivity.
Qed.

(** ** The sorted identifiers *)

Lemma buildSortedIds_isSet (m : gmap string Course) : isSet (buildSortedIds m).
Proof. apply sort_isSet, NoDup_fst_map_to_list. Qed.

Lemma buildSortedIds_elem (m : gmap string Course) id :
  id ∈ buildSortedIds m <-> is_Some (m !! id).
Proof.
  unfold buildSortedIds. rewrite sort_elem, list_elem_of_fmap. split.
  - intros ([k c] & -> & Hin). apply elem_of_map_to_list in Hin. eauto.
  - intros [c Hc]. exists (id, c). split; [reflexivity|].
    apply elem_of_map_to_list. exact Hc.
Qed.

(** ** Outcomes of [load] on the catalog *)

Lemma load_success fs fileName self p content :
  resolveCourseFilePath fs fileName = Returns (Some p) ->
  node fs p = Some (Readable content) ->
  records (fileLines content) <> [] ->
  load fs fileName self =
    (Returns
       {| ok := true;
          courses :=
            N.of_nat (size (loadedCourseDirectory (parseFile content)));
          warnings := collected (parseFile content);
          missingPrerequisites :=
            collectMissing (loadedCourseDirectory (parseFile content));
          path := p |},
     committed content).
Proof.
  intros Hres Hnode Hrecs. rewrite (load_opened _ _ _ _ _ Hres Hnode).
  cbv zeta. rewrite decide_False; [reflexivity|].
  rewrite parseFile_empty. exact Hrecs.
Qed.

Lemma load_no_record fs fileName self p content :
  resolveCourseFilePath fs fileName = Returns (Some p) ->
  node fs p = Some (Readable content) ->
  records (fileLines content) = [] ->
  load fs fileName self =
    (Returns
       {| ok := false; courses := 0;
          warnings := collected (parseFile content);
          missingPrerequisites := []; path := p |}, self).
Proof.
  intros Hres Hnode Hrecs. rewrite (load_opened _ _ _ _ _ Hres Hnode).
  cbv zeta. rewrite decide_True; [reflexivity|].
  rewrite parseFile_empty. exact Hrecs.
Qed.

(** ** Atomic commit (claim C1) *)

(** C1: a call of [load] either returns a result or, when a library
    call of the path resolution throws, ends by that exception.  A
    returned load fails exactly when the file name is empty, the file is
    not located, it is located but cannot be opened, or it holds no
    valid record; a failed load, and likewise a load that throws, leaves
    the catalog as it was, so [get] and [ids] answer as before; the
    mapping and the sorted identifiers are replaced only by a load whose
    file holds at least one valid record, and then by what was parsed
    from that file. *)
Theorem load_atomic_commit (fs : FileSystem) (fileName : string)
    (self : Catalog) :
  let outcome := (load fs fileName self).1 in
  let after := (load fs fileName self).2 in
  (outcome = Throws <-> resolveCourseFilePath fs fileName = Throws) /\
  (forall result, outcome = Returns result ->
     (ok result = false <->
        fileName = EmptyString \/
        resolveCourseFilePath fs fileName = Returns None \/
        (exists p, resolveCourseFilePath fs fileName = Returns (Some p) /\
           forall content, node fs p <> Some (Readable content)) \/
        (exists p content,
           resolveCourseFilePath fs fileName = Returns (Some p) /\
           node fs p = Some (Readable content) /\
           records (fileLines content) = []))) /\
  (outcome = Throws \/ (exists result, outcome = Returns result /\
                          ok result = false) ->
     after = self /\ (forall id, get after id = get self id) /\
     ids after = ids self) /\
  (forall result, outcome = Returns result -> ok result = true ->
     exists p content,
       resolveCourseFilePath fs fileName = Returns (Some p) /\
       node fs p = Some (Readable content) /\
       records (fileLines content) <> [] /\
       after = committed content).
Proof.
  cbv zeta.
  destruct (load_cases fs fileName)
    as [->|[(Hne & Hres)|[(Hne & Hres)|[(p & Hres & Hnode)|
        (p & content & Hres & Hnode)]]]].
  - simpl. split; [split; discriminate|]. split; [|split; [auto|]].
    + intros r [= <-]. simpl. tauto.
    + intros r [= <-]. discriminate.
  - rewrite load_thrown by assumption. simpl.
    split; [tauto|]. split; [discriminate|]. split; [auto|discriminate].
  - rewrite load_not_located by assumption. simpl. rewrite Hres.
    split; [split; discriminate|]. split; [|split; [auto|]].
    + intros r [= <-]. simpl. tauto.
    + intros r [= <-]. discriminate.
  - rewrite (load_not_opened _ _ _ p) by assumption. simpl. rewrite Hres.
    split; [split; discriminate|]. split; [|split; [auto|]].
    + intros r [= <-]. simpl. split; [|reflexivity].
      intros _. right. right. left. eauto.
    + intros r [= <-]. discriminate.
  - destruct (decide (records (fileLines content) = [])) as [Hrecs|Hrecs].
    + rewrite (load_no_record _ _ _ p content) by assumption. simpl.
      rewrite Hres.
      split; [split; discriminate|]. split; [|split; [auto|]].
      * intros r [= <-]. simpl. split; [|reflexivity].
        intros _. right. right. right. eauto.
      * intros r [= <-]. discriminate.
    + rewrite (load_success _ _ _ p content) by assumption. simpl.
      rewrite Hres.
      split; [split; discriminate|]. split; [|split].
      * intros r [= <-]. simpl. split; [discriminate|].
        intros [->|[Hnone|[(p' & Hp' & Hn)|(p' & c' & Hp' & Hn & Hr)]]].
        -- discriminate.
        -- discriminate.
        -- injection Hp' as <-. destruct (Hn _ Hnode).
        -- injection Hp' as <-.
           rewrite Hnode in Hn. injection Hn as <-. contradiction.
      * intros [Hthrow|(r & [= <-] & Hok)]; discriminate.
      * intros r [= <-] _. eauto 10.
Qed.

(** A load of a file without valid record, after a successful one. *)
Lemma load_atomic_commit_witness :
  (load buildTree "bad.csv" afterFirstLoad).1 =
    Returns
      {| ok := false; courses := 0;
         warnings := ["Skipping line 1: invalid course ID '200CSCI'."];
         missingPrerequisites := []; path := "/proj/build/bad.csv" |} /\
  (load buildTree "bad.csv" afterFirstLoad).2 = afterFirstLoad.
Proof.
  assert (H : (load buildTree "bad.csv" afterFirstLoad).1 =
    Returns
      {| ok := false; courses := 0;
         warnings := ["Skipping line 1: invalid course ID '200CSCI'."];
         missingPrerequisites := []; path := "/proj/build/bad.csv" |})
    by (vm_compute; reflexivity).
  split; [exact H|].
  refine (proj1 (proj1 (proj2 (proj2 (load_atomic_commit buildTree "bad.csv"
    afterFirstLoad))) _)).
  right. eexists. split; [exact H|reflexivity].
Defined.

(** ** Idempotence (claim C8) *)

(** C8: when the file that [load] reads holds at least one valid record,
    a second load of it right after the first answers the same result
    and leaves the same catalog: the same mapping from identifier to
    course and the same [ids]. *)
Theorem load_idempotent (fs : FileSystem) (fileName : string)
    (self : Catalog) (p content : string)
    (Hres : resolveCourseFilePath fs fileName = Returns (Some p))
    (Hnode : node fs p = Some (Readable content))
    (Hrecs : records (fileLines content) <> []) :
  let first := load fs fileName self in
  let second := load fs fileName first.2 in
  second = first /\
  courseDirectory second.2 = courseDirectory first.2 /\
  (forall id, get second.2 id = get first.2 id) /\
  ids second.2 = ids first.2.
Proof.
  cbv zeta.
  rewrite (load_success _ _ (load fs fileName self).2 p content)
    by assumption.
  rewrite (load_success _ _ self p content) by assumption.
  repeat split.
Qed.

Lemma load_idempotent_witness :
  load buildTree "data.csv" afterFirstLoad =
    load buildTree "data.csv" emptyCatalog.
Proof.
  refine (proj1 (load_idempotent buildTree "data.csv" emptyCatalog
    "/proj/data.csv" twoCourses _ _ _)).
  - reflexivity.
  - reflexivity.
  - vm_compute. discriminate.
Defined.

(** ** The order invariant (claim C7) *)

Lemma buildSortedIds_empty : buildSortedIds ∅ = [].
Proof. unfold buildSortedIds. rewrite map_to_list_empty. reflexivity. Qed.

(** A call either throws or fails, and keeps the catalog, or commits
    what it parsed. *)
Lemma load_outcome fs fileName self :
  ((load fs fileName self).1 = Throws /\ (load fs fileName self).2 = self) \/
  (exists r, (load fs fileName self).1 = Returns r /\ ok r = false /\
     (load fs fileName self).2 = self) \/
  (exists p content r,
     resolveCourseFilePath fs fileName = Returns (Some p) /\
     node fs p = Some (Readable content) /\
     records (fileLines content) <> [] /\
     (load fs fileName self).1 = Returns r /\ ok r = true /\
     (load fs fileName self).2 = committed content).
Proof.
  destruct (load_cases fs fileName)
    as [->|[(Hne & Hres)|[(Hne & Hres)|[(p & Hres & Hnode)|
        (p & content & Hres & Hnode)]]]].
  - right. left. eexists. repeat split.
  - left. rewrite load_thrown by assumption. split; reflexivity.
  - right. left. rewrite load_not_located by assumption.
    eexists. repeat split.
  - right. left. rewrite (load_not_opened _ _ _ p) by assumption.
    eexists. repeat split.
  - destruct (decide (records (fileLines content) = [])) as [Hrecs|Hrecs].
    + right. left. rewrite (load_no_record _ _ _ p content) by assumption.
      eexists. repeat split.
    + right. right. exists p, content.
      rewrite (load_success _ _ _ p content) by assumption.
      eexists. repeat split; auto.
Qed.

Lemma load_invariant fs fileName self :
  catalogInvariant self -> catalogInvariant (load fs fileName self).2.
Proof.
  intros Hinv.
  destruct (load_outcome fs fileName self)
    as [(_ & ->)|[(r & _ & _ & ->)|(p & content & r & _ & _ & _ & _ & _ & ->)]].
  - exact Hinv.
  - exact Hinv.
  - reflexivity.
Qed.

Lemma reachable_invariant self : reachable self -> catalogInvariant self.
Proof.
  induction 1 as [|c self Hreach IH].
  - unfold catalogInvariant. simpl. rewrite buildSortedIds_empty. reflexivity.
  - destruct c as [fs fileName|id|]; simpl; [|exact IH|exact IH].
    pose proof (load_invariant fs fileName self IH) as H.
    destruct (load fs fileName self). exact H.
Qed.

(** C7: in every state that a catalog object can reach, [ids] is the
    sorted arrangement of the keys of the committed mapping: strictly
    increasing in the order of [std::string], hence without duplicate,
    holding an identifier exactly when [get] finds it, and the only list
    with these properties; [get] and [ids] give back the object as it
    was, and their answers carry no warning. *)
Theorem ids_sorted_keys (self : Catalog) (Hreach : reachable self) :
  ids self = sort ((map_to_list (courseDirectory self)).*1) /\
  isSet (ids self) /\
  NoDup (ids self) /\
  (forall id, id ∈ ids self <-> is_Some (get self id)) /\
  (forall l, isSet l -> (forall id, id ∈ l <-> is_Some (get self id)) ->
     l = ids self) /\
  (forall id, call (CallGet id) self = (GetAnswer (get self id), self)) /\
  call CallIds self = (IdsAnswer (ids self), self).
Proof.
  pose proof (reachable_invariant self Hreach) as Hinv.
  unfold catalogInvariant in Hinv. unfold ids, get. rewrite Hinv.
  assert (Hset := buildSortedIds_isSet (courseDirectory self)).
  assert (Hel := buildSortedIds_elem (courseDirectory self)).
  repeat split; auto.
  - apply isSet_NoDup, Hset.
  - apply Hel.
  - apply Hel.
  - intros l Hl Hmem. apply isSet_unique; auto.
    intros x. rewrite Hmem, Hel. reflexivity.
  - simpl. unfold ids. rewrite Hinv. reflexivity.
Qed.

Lemma ids_sorted_keys_witness :
  ids afterFirstLoad = ["CSCI101"; "CSCI200"] /\ isSet (ids afterFirstLoad).
Proof.
  split; [reflexivity|].
  refine (proj1 (proj2 (ids_sorted_keys afterFirstLoad _))).
  exact (reachable_call (CallLoad buildTree "data.csv") emptyCatalog
           reachable_new).
Defined.

(** ** Duplicate course identifiers (claim C6) *)

Lemma occurrences_NoDup (l : list string) x :
  NoDup l -> x ∈ l -> occurrences x l = 1%nat.
Proof.
  unfold occurrences. induction 1 as [|y l Hy Hnd IH]; intros Hin.
  - inversion Hin.
  - apply elem_of_cons in Hin as [->|Hin].
    + rewrite filter_cons_True by reflexivity. simpl. f_equal.
      apply (occurrences_absent y l Hy).
    + rewrite filter_cons_False by (intros ->; auto). auto.
Qed.

(** C6: when the file read holds lines that define an identifier, the
    load succeeds, the catalog binds the identifier once, to the record
    of the last of these lines (title and prerequisites), the course
    count is the number of distinct identifiers, the warnings hold
    "Replacing existing course entry for <ID>." once for every defining
    line after the first, and every identifier of the file, before or
    after these lines, is bound to its own last definition. *)
Theorem duplicate_course_replaced (fs : FileSystem) (fileName : string)
    (self : Catalog) (p content id : string)
    (Hres : resolveCourseFilePath fs fileName = Returns (Some p))
    (Hnode : node fs p = Some (Readable content))
    (Hdefs : definitionsOf id (fileLines content) <> []) :
  exists result, (load fs fileName self).1 = Returns result /\
  let after := (load fs fileName self).2 in
  ok result = true /\
  get after id = last (definitionsOf id (fileLines content)) /\
  is_Some (get after id) /\
  occurrences id (ids after) = 1%nat /\
  courses result =
    N.of_nat (length (remove_dups
                        (courseNumber <$> records (fileLines content)))) /\
  occurrences (replacingWarning id) (warnings result) =
    (length (definitionsOf id (fileLines content)) - 1)%nat /\
  (forall id', get after id' = last (definitionsOf id' (fileLines content))).
Proof.
  cbv zeta.
  assert (Hrecs : records (fileLines content) <> []).
  { intros Hnil. apply Hdefs. unfold definitionsOf. rewrite Hnil. reflexivity. }
  rewrite (load_success _ _ _ p content) by assumption. simpl.
  eexists. split; [reflexivity|]. simpl.
  unfold get, ids, committed. simpl.
  assert (Hsome : is_Some
    (loadedCourseDirectory (parseFile content) !! id)).
  { rewrite parseFile_lookup. apply last_is_Some, Hdefs. }
  repeat split.
  - apply parseFile_lookup.
  - exact Hsome.
  - apply occurrences_NoDup.
    + apply isSet_NoDup, buildSortedIds_isSet.
    + apply buildSortedIds_elem, Hsome.
  - rewrite parseFile_size. reflexivity.
  - unfold parseFile. rewrite parse_replacements. simpl.
    rewrite lookup_empty. reflexivity.
  - intros id'. apply parseFile_lookup.
Qed.

Lemma duplicate_course_replaced_witness :
  exists result,
    (load buildTree "twice.csv" emptyCatalog).1 = Returns result /\
    get (load buildTree "twice.csv" emptyCatalog).2 "CSCI200" =
      Some {| courseNumber := "CSCI200"; courseName := "Intro II";
              prerequisites := ["MATH101"; "PHYS7"] |} /\
    courses result = 2%N /\
    occurrences "Replacing existing course entry for CSCI200."
      (warnings result) = 1%nat.
Proof.
  pose proof (duplicate_course_replaced buildTree "twice.csv" emptyCatalog
    "/proj/build/twice.csv" definedTwice "CSCI200" eq_refl eq_refl) as H.
  assert (Hdefs : definitionsOf "CSCI200" (fileLines definedTwice) <> [])
    by (vm_compute; discriminate).
  destruct (H Hdefs) as (r & Hr & _ & Hget & _ & _ & Hcount & Hwarn & _).
  exists r. split; [exact Hr|]. split; [|split].
  - rewrite Hget. vm_compute. reflexivity.
  - rewrite Hcount. vm_compute. reflexivity.
  - etrans; [exact Hwarn|]. vm_compute. reflexivity.
Defined.

(** ** Dangling prerequisites (claim C4) *)

Lemma missingOfCourse_spec loaded owner course : forall missingSet,
  isSet missingSet ->
  isSet (missingOfCourse loaded missingSet (owner, course)) /\
  forall s, s ∈ missingOfCourse loaded missingSet (owner, course) <->
    s ∈ missingSet \/
    exists prereq, prereq ∈ prerequisites course /\
      loaded !! prereq = None /\ s = missingDescription prereq owner.
Proof.
  unfold missingOfCourse. simpl.
  induction (prerequisites course) as [|q qs IH]; intros acc Hacc; simpl.
  - split; [exact Hacc|]. intros s. split; [auto|].
    intros [H|(q & Hq & _)]; [exact H|inversion Hq].
  - destruct (loaded !! q) eqn:Hq.
    + destruct (IH acc Hacc) as [Hset Hmem]. split; [exact Hset|].
      intros s. rewrite Hmem. split.
      * intros [H|(q' & Hin & Hnone & ->)]; [auto|].
        right. exists q'. split; [right; exact Hin|auto].
      * intros [H|(q' & Hin & Hnone & ->)]; [auto|].
        apply elem_of_cons in Hin as [->|Hin]; [congruence|].
        right. exists q'. auto.
    + destruct (IH (set_insert (missingDescription q owner) acc).1
                  (set_insert_isSet _ _ Hacc)) as [Hset Hmem].
      split; [exact Hset|].
      intros s. rewrite Hmem, set_insert_elem. split.
      * intros [[->|H]|(q' & Hin & Hnone & ->)]; [|auto|].
        -- right. exists q. split; [left|auto].
        -- right. exists q'. split; [right; exact Hin|auto].
      * intros [H|(q' & Hin & Hnone & ->)]; [auto|].
        apply elem_of_cons in Hin as [->|Hin]; [auto|].
        right. exists q'. auto.
Qed.

Lemma collectMissing_fold loaded entries : forall missingSet,
  isSet missingSet ->
  isSet (fold_left (missingOfCourse loaded) entries missingSet) /\
  forall s, s ∈ fold_left (missingOfCourse loaded) entries missingSet <->
    s ∈ missingSet \/
    exists owner course prereq, (owner, course) ∈ entries /\
      prereq ∈ prerequisites course /\
      loaded !! prereq = None /\ s = missingDescription prereq owner.
Proof.
  induction entries as [|[owner course] es IH]; intros acc Hacc; simpl.
  - split; [exact Hacc|]. intros s. split; [auto|].
    intros [H|(o & c & q & Hin & _)]; [exact H|inversion Hin].
  - destruct (missingOfCourse_spec loaded owner course acc Hacc)
      as [Hset1 Hmem1].
    destruct (IH _ Hset1) as [Hset Hmem]. split; [exact Hset|].
    intros s. rewrite Hmem, Hmem1. split.
    + intros [[H|(q & Hq & Hnone & ->)]|(o & c & q & Hin & Hq & Hnone & ->)].
      * auto.
      * right. exists owner, course, q. split; [left|auto].
      * right. exists o, c, q. split; [right; exact Hin|auto].
    + intros [H|(o & c & q & Hin & Hq & Hnone & ->)]; [auto|].
      apply elem_of_cons in Hin as [[= -> ->]|Hin].
      * left. right. exists q. auto.
      * right. exists o, c, q. auto.
Qed.

Lemma collectMissing_isSet loaded : isSet (collectMissing loaded).
Proof. apply collectMissing_fold. constructor. Qed.

Lemma collectMissing_elem loaded s :
  s ∈ collectMissing loaded <->
  exists owner course prereq, loaded !! owner = Some course /\
    prereq ∈ prerequisites course /\
    loaded !! prereq = None /\ s = missingDescription prereq owner.
Proof.
  unfold collectMissing.
  rewrite (proj2 (collectMissing_fold loaded (map_to_list loaded) []
                    ltac:(constructor))).
  split.
  - intros [H|(o & c & q & Hin & H)]; [inversion H|].
    apply elem_of_map_to_list in Hin. exists o, c, q. auto.
  - intros (o & c & q & Hin & H). right. exists o, c, q.
    split; [|exact H]. apply elem_of_map_to_list. exact Hin.
Qed.

(** The iteration order of [std::unordered_map] is unspecified: whatever
    order the entries are visited in, the set of descriptions and the
    sorted identifiers come out the same. *)
Lemma iteration_order_irrelevant (loaded : gmap string Course)
    (entries : list (string * Course)) :
  entries ≡ₚ map_to_list loaded ->
  fold_left (missingOfCourse loaded) entries [] = collectMissing loaded /\
  sort (entries.*1) = buildSortedIds loaded.
Proof.
  intros Hperm. split.
  - destruct (collectMissing_fold loaded entries [] ltac:(constructor))
      as [Hset Hmem].
    apply isSet_unique; [exact Hset|apply collectMissing_isSet|].
    intros s. rewrite Hmem, collectMissing_elem. split.
    + intros [H|(o & c & q & Hin & H)]; [inversion H|].
      rewrite Hperm in Hin. apply elem_of_map_to_list in Hin.
      exists o, c, q. auto.
    + intros (o & c & q & Hin & H). right. exists o, c, q.
      split; [|exact H]. rewrite Hperm. apply elem_of_map_to_list, Hin.
  - apply isSet_unique.
    + apply sort_isSet. rewrite Hperm. apply NoDup_fst_map_to_list.
    + apply buildSortedIds_isSet.
    + intros x. unfold buildSortedIds. rewrite !sort_elem, Hperm.
      reflexivity.
Qed.

(** Identifiers hold no space, so a description names one pair only. *)
Lemma valid_no_space s ch :
  isCourseIdValid s = true -> In ch (chars s) -> ch <> " "%char.
Proof.
  intros Hvalid Hin ->. destruct s as [|c s]; [discriminate|].
  change (scanCourseId false false (String c s) = true) in Hvalid.
  apply scanCourseId_spec in Hvalid as (Hall & _).
  destruct (Hall _ Hin); discriminate.
Qed.

Lemma missingDescription_inj p1 o1 p2 o2 :
  isCourseIdValid p1 = true -> isCourseIdValid p2 = true ->
  missingDescription p1 o1 = missingDescription p2 o2 ->
  p1 = p2 /\ o1 = o2.
Proof.
  intros H1 H2.
  pose proof (fun ch => valid_no_space p1 ch H1) as Hs1.
  pose proof (fun ch => valid_no_space p2 ch H2) as Hs2.
  clear H1 H2. unfold missingDescription.
  revert p2 Hs2. induction p1 as [|c p1 IH]; intros [|c' p2] Hs2 H;
    simpl in H.
  - injection H as H. split; [reflexivity|].
    apply (append_char_inj _ _ _ H).
  - injection H as Hc _. destruct (Hs2 c'); [left; reflexivity|auto].
  - injection H as Hc _. destruct (Hs1 c); [left; reflexivity|auto].
  - injection H as -> H.
    destruct (IH (fun ch Hin => Hs1 ch (or_intror Hin)) p2
                 (fun ch Hin => Hs2 ch (or_intror Hin)) H) as [-> ->].
    auto.
Qed.

Lemma firstOccurrences_elem (l : list string) x :
  x ∈ firstOccurrences l <-> x ∈ l.
Proof.
  induction l as [|y l IH]; simpl; [reflexivity|].
  rewrite !elem_of_cons, list_elem_of_filter, IH.
  destruct (decide (x = y)); tauto.
Qed.

(** The records of a line carry valid identifiers only. *)
Lemma lineRecord_valid rawLine c :
  lineRecord rawLine = Some c ->
  isCourseIdValid (courseNumber c) = true /\
  forall prereq, prereq ∈ prerequisites c -> isCourseIdValid prereq = true.
Proof.
  unfold lineRecord. destruct (trim rawLine) as [|a line]; [discriminate|].
  destruct (trim <$> getlines comma (String a line))
    as [|c0 [|c1 others]]; try discriminate.
  destruct (isCourseIdValid (toUpper c0)) eqn:Hvalid; [|discriminate].
  intros [= <-]. simpl. split; [exact Hvalid|].
  intros q. rewrite parsePrereqs_accepted, firstOccurrences_elem.
  unfold validCandidates. rewrite list_elem_of_filter. tauto.
Qed.

Lemma parseFile_valid content id c :
  loadedCourseDirectory (parseFile content) !! id = Some c ->
  courseNumber c = id /\ isCourseIdValid id = true /\
  forall prereq, prereq ∈ prerequisites c -> isCourseIdValid prereq = true.
Proof.
  rewrite parseFile_lookup. intros Hlast.
  assert (Hin : c ∈ definitionsOf id (fileLines content)).
  { apply last_Some in Hlast as [l' ->]. apply elem_of_app. right. left. }
  unfold definitionsOf in Hin.
  apply list_elem_of_filter in Hin as [<- Hin].
  unfold records in Hin. apply list_elem_of_omap in Hin as (raw & _ & Hrec).
  destruct (lineRecord_valid _ _ Hrec). auto.
Qed.

(** C4: on a successful load the list of missing prerequisites holds the
    description "<missing-id> (referenced by <owning-course-id>)" of
    every pair of a course of the final mapping and a prerequisite of it
    that the mapping lacks, and nothing else; it is strictly increasing
    in the order of [std::string], hence sorted and without duplicate;
    the load succeeds whether or not the list is empty; and no
    description of an identifier that the file defines, on whatever
    line, is in the list. *)
Theorem missing_prerequisites (fs : FileSystem) (fileName : string)
    (self : Catalog) (p content : string)
    (Hres : resolveCourseFilePath fs fileName = Returns (Some p))
    (Hnode : node fs p = Some (Readable content))
    (Hrecs : records (fileLines content) <> []) :
  exists result, (load fs fileName self).1 = Returns result /\
  let after := (load fs fileName self).2 in
  ok result = true /\
  (forall s, s ∈ missingPrerequisites result <->
     exists owner course prereq, get after owner = Some course /\
       prereq ∈ prerequisites course /\ get after prereq = None /\
       s = missingDescription prereq owner) /\
  isSet (missingPrerequisites result) /\
  NoDup (missingPrerequisites result) /\
  (forall prereq owner, is_Some (get after prereq) ->
     missingDescription prereq owner ∉ missingPrerequisites result) /\
  (forall prereq owner, prereq ∈ courseNumber <$> records (fileLines content) ->
     missingDescription prereq owner ∉ missingPrerequisites result).
Proof.
  cbv zeta. rewrite (load_success _ _ _ p content) by assumption.
  simpl. eexists. split; [reflexivity|].
  simpl. unfold get, committed. simpl.
  set (loaded := loadedCourseDirectory (parseFile content)).
  assert (Hdefined : forall prereq owner, is_Some (loaded !! prereq) ->
    missingDescription prereq owner ∉ collectMissing loaded).
  { intros q o [cq Hq] Hin.
    apply collectMissing_elem in Hin as (o' & c' & q' & Ho' & Hq' & Hnone & Heq).
    destruct (parseFile_valid _ _ _ Hq) as (_ & Hvq & _).
    destruct (parseFile_valid _ _ _ Ho') as (_ & _ & Hvq').
    apply missingDescription_inj in Heq as [-> _]; auto.
    fold loaded in Hnone. congruence. }
  repeat split.
  - apply collectMissing_elem.
  - apply collectMissing_elem.
  - apply collectMissing_isSet.
  - apply isSet_NoDup, collectMissing_isSet.
  - exact Hdefined.
  - intros q o Hin. apply Hdefined. apply parseFile_is_Some. exact Hin.
Qed.

Lemma missing_prerequisites_witness :
  exists result,
    (load buildTree "twice.csv" emptyCatalog).1 = Returns result /\
    ok result = true /\
    missingPrerequisites result = ["PHYS7 (referenced by CSCI200)"] /\
    isSet (missingPrerequisites result).
Proof.
  pose proof (missing_prerequisites buildTree "twice.csv" emptyCatalog
    "/proj/build/twice.csv" definedTwice eq_refl eq_refl) as H.
  assert (Hrecs : records (fileLines definedTwice) <> [])
    by (vm_compute; discriminate).
  destruct (H Hrecs) as (r & Hr & Hok & _ & Hset & _).
  exists r. split; [exact Hr|]. split; [exact Hok|]. split; [|exact Hset].
  assert (Hv : (load buildTree "twice.csv" emptyCatalog).1 =
    Returns {| ok := true; courses := 2;
       warnings := ["Replacing existing course entry for CSCI200."];
       missingPrerequisites := ["PHYS7 (referenced by CSCI200)"];
       path := "/proj/build/twice.csv" |}) by (vm_compute; reflexivity).
  rewrite Hr in Hv. injection Hv as ->. reflexivity.
Defined.

(** ** The scenarios of the specification *)

Example scenario_two_courses :
  load buildTree "data.csv" emptyCatalog =
    (Returns
       {| ok := true; courses := 2; warnings := [];
          missingPrerequisites := []; path := "/proj/data.csv" |},
     afterFirstLoad) /\
  ids afterFirstLoad = ["CSCI101"; "CSCI200"] /\
  get afterFirstLoad "CSCI200" =
    Some {| courseNumber := "CSCI200"; courseName := "Intro to CS";
            prerequisites := ["CSCI101"] |} /\
  get afterFirstLoad "csci200" = None.
Proof. vm_compute. repeat split. Qed.

Example scenario_bad_identifier :
  load buildTree "bad.csv" emptyCatalog =
    (Returns
       {| ok := false; courses := 0;
          warnings := ["Skipping line 1: invalid course ID '200CSCI'."];
          missingPrerequisites := []; path := "/proj/build/bad.csv" |},
     emptyCatalog).
Proof. vm_compute. reflexivity. Qed.

Example scenario_defined_twice :
  (load buildTree "twice.csv" emptyCatalog).1 =
    Returns
      {| ok := true; courses := 2;
         warnings := ["Replacing existing course entry for CSCI200."];
         missingPrerequisites := ["PHYS7 (referenced by CSCI200)"];
         path := "/proj/build/twice.csv" |}.
Proof. vm_compute. reflexivity. Qed.

Example scenario_blank_lines :
  parseFile (String newline (String " " (String newline ""))) =
    {| loadedCourseDirectory := ∅; collected := []; lineNumber := 2 |}.
Proof. vm_compute. reflexivity. Qed.

Example getlines_trailing_comma :
  getlines comma "A1,Title," = ["A1"; "Title"] /\
  getlines comma "A1,Title,,B2" = ["A1"; "Title"; ""; "B2"].
Proof. split; reflexivity. Qed.

(** * Further properties of the catalog code and of its callers *)

(** ** [trim] *)

Lemma append_cons c s t : String c s +:+ t = String c (s +:+ t).
Proof. reflexivity. Qed.

Lemma append_nil_l s : "" +:+ s = s.
Proof. reflexivity. Qed.

Lemma chars_app s1 s2 : chars (s1 +:+ s2) = chars s1 ++ chars s2.
Proof. induction s1 as [|c s1 IH]; simpl; [reflexivity|]. f_equal. exact IH. Qed.

Lemma append_nil_r s : s +:+ "" = s.
Proof.
  induction s as [|c s IH]; [reflexivity|].
  change (String c (s +:+ "") = String c s). f_equal. exact IH.
Qed.

Lemma append_assoc s1 s2 s3 : (s1 +:+ s2) +:+ s3 = s1 +:+ (s2 +:+ s3).
Proof.
  induction s1 as [|c s1 IH]; [reflexivity|].
  change (String c ((s1 +:+ s2) +:+ s3) = String c (s1 +:+ (s2 +:+ s3))).
  f_equal. exact IH.
Qed.

Lemma dropBlanks_decompose s :
  exists lead, s = lead +:+ dropBlanks s /\ allBlank lead.
Proof.
  induction s as [|c s IH]; simpl.
  - exists EmptyString. split; [reflexivity|]. intros ch [].
  - destruct (Char.inTrimSet c) eqn:Hc.
    + destruct IH as (lead & Heq & Hlead). exists (String c lead). split.
      * rewrite append_cons. congruence.
      * intros ch [<-|Hin]; auto.
    + exists EmptyString. split; [reflexivity|]. intros ch [].
Qed.

Lemma dropTrailingBlanks_decompose s :
  exists trail, s = dropTrailingBlanks s +:+ trail /\ allBlank trail.
Proof.
  induction s as [|c s IH]; simpl.
  - exists EmptyString. split; [reflexivity|]. intros ch [].
  - destruct IH as (trail & Heq & Htrail).
    destruct (dropTrailingBlanks s) as [|k kept] eqn:Hkept.
    + rewrite append_nil_l in Heq. subst trail.
      destruct (Char.inTrimSet c) eqn:Hc.
      * exists (String c s). split; [reflexivity|].
        intros ch [<-|Hin]; auto.
      * exists s. split; [reflexivity|]. exact Htrail.
    + exists trail. split; [|exact Htrail].
      rewrite !append_cons in *. congruence.
Qed.

Lemma dropBlanks_front s ch :
  front (dropBlanks s) = Some ch -> Char.inTrimSet ch = false.
Proof.
  induction s as [|c s IH]; simpl; [discriminate|].
  destruct (Char.inTrimSet c) eqn:Hc; [exact IH|].
  simpl. congruence.
Qed.

Lemma dropTrailingBlanks_front s ch :
  front s = Some ch -> Char.inTrimSet ch = false ->
  front (dropTrailingBlanks s) = Some ch.
Proof.
  destruct s as [|c s]; simpl; [discriminate|]. intros [= ->] Hch.
  destruct (dropTrailingBlanks s); [rewrite Hch|]; reflexivity.
Qed.

Lemma dropTrailingBlanks_back s ch :
  back (dropTrailingBlanks s) = Some ch -> Char.inTrimSet ch = false.
Proof.
  induction s as [|c s IH]; simpl; [discriminate|].
  destruct (dropTrailingBlanks s) as [|k kept] eqn:Hkept.
  - destruct (Char.inTrimSet c) eqn:Hc; simpl; [discriminate|congruence].
  - intros H. apply IH. exact H.
Qed.

Lemma dropBlanks_fixed s :
  (forall ch, front s = Some ch -> Char.inTrimSet ch = false) ->
  dropBlanks s = s.
Proof.
  destruct s as [|c s]; simpl; [reflexivity|]. intros H.
  rewrite (H c eq_refl). reflexivity.
Qed.

Lemma dropTrailingBlanks_fixed s :
  (forall ch, back s = Some ch -> Char.inTrimSet ch = false) ->
  dropTrailingBlanks s = s.
Proof.
  induction s as [|c s IH]; simpl; [reflexivity|]. intros H.
  destruct s as [|c' s'].
  - simpl. rewrite (H c eq_refl). reflexivity.
  - rewrite IH by exact H. reflexivity.
Qed.

Lemma trim_front s ch : front (trim s) = Some ch -> Char.inTrimSet ch = false.
Proof.
  unfold trim. intros H.
  destruct (front (dropBlanks s)) as [c|] eqn:Hf.
  - pose proof (dropBlanks_front _ _ Hf) as Hc.
    rewrite (dropTrailingBlanks_front _ _ Hf Hc) in H. congruence.
  - destruct (dropBlanks s); [discriminate H|discriminate Hf].
Qed.

Lemma trim_back s ch : back (trim s) = Some ch -> Char.inTrimSet ch = false.
Proof. apply dropTrailingBlanks_back. Qed.

Lemma trim_decompose s :
  exists lead trail,
    s = lead +:+ trim s +:+ trail /\ allBlank lead /\ allBlank trail.
Proof.
  destruct (dropBlanks_decompose s) as (lead & Hs & Hlead).
  destruct (dropTrailingBlanks_decompose (dropBlanks s))
    as (trail & Ht & Htrail).
  exists lead, trail. unfold trim. rewrite <- Ht. auto.
Qed.

Lemma allBlank_no_front s ch :
  allBlank s -> front s = Some ch -> Char.inTrimSet ch = true.
Proof.
  destruct s as [|c s]; [discriminate|]. intros Hall [= <-].
  apply Hall. left. reflexivity.
Qed.

(** X1: [trim] removes blanks (space, tab, carriage return, line feed) from
    the two ends and nothing else: the text is a run of blanks, the
    result, and a run of blanks; the result neither starts nor ends with
    a blank; it is empty exactly when the text holds blanks only. *)
Theorem trim_spec (s : string) :
  (exists lead trail,
     s = lead +:+ trim s +:+ trail /\ allBlank lead /\ allBlank trail) /\
  (forall ch, front (trim s) = Some ch -> Char.inTrimSet ch = false) /\
  (forall ch, back (trim s) = Some ch -> Char.inTrimSet ch = false) /\
  (trim s = EmptyString <-> allBlank s).
Proof.
  split; [apply trim_decompose|].
  split; [apply trim_front|]. split; [apply trim_back|].
  split.
  - intros Hempty. destruct (trim_decompose s) as (lead & trail & Hs & Hl & Ht).
    rewrite Hempty, append_nil_l in Hs. rewrite Hs.
    intros ch. rewrite chars_app, in_app_iff. intros [H|H]; auto.
  - intros Hall. destruct (trim s) as [|c t] eqn:Htrim; [reflexivity|].
    pose proof (trim_front s c) as Hc. rewrite Htrim in Hc.
    specialize (Hc eq_refl).
    destruct (trim_decompose s) as (lead & trail & Hs & _).
    rewrite Htrim in Hs.
    assert (Hin : In c (chars s)).
    { rewrite Hs, chars_app, in_app_iff. right. left. reflexivity. }
    rewrite (Hall c Hin) in Hc. discriminate.
Qed.

Lemma trim_trim s : trim (trim s) = trim s.
Proof.
  unfold trim at 1.
  rewrite (dropBlanks_fixed (trim s)) by apply trim_front.
  apply dropTrailingBlanks_fixed, trim_back.
Qed.

(** X2: Trimming twice is trimming once, and a text that neither starts nor
    ends with a blank is left as it is. *)
Theorem trim_idempotent (s : string) :
  trim (trim s) = trim s /\
  ((forall ch, front s = Some ch -> Char.inTrimSet ch = false) ->
   (forall ch, back s = Some ch -> Char.inTrimSet ch = false) ->
   trim s = s).
Proof.
  split; [apply trim_trim|]. intros Hfront Hback. unfold trim.
  rewrite (dropBlanks_fixed s Hfront). apply dropTrailingBlanks_fixed, Hback.
Qed.

(** ** [toUpper] and the validator *)

Ltac each_ascii c :=
  destruct c as [[] [] [] [] [] [] [] []]; vm_compute; reflexivity.

Lemma toupper_isalpha c : Char.isalpha (Char.toupper c) = Char.isalpha c.
Proof. each_ascii c. Qed.

Lemma toupper_isdigit c : Char.isdigit (Char.toupper c) = Char.isdigit c.
Proof. each_ascii c. Qed.

Lemma toupper_toupper c : Char.toupper (Char.toupper c) = Char.toupper c.
Proof. each_ascii c. Qed.

Lemma toupper_not_lower c : islower (Char.toupper c) = false.
Proof. each_ascii c. Qed.

Lemma toupper_inTrimSet c : Char.inTrimSet (Char.toupper c) = Char.inTrimSet c.
Proof. each_ascii c. Qed.

Lemma toupper_comma c :
  Ascii.eqb (Char.toupper c) comma = Ascii.eqb c comma.
Proof. each_ascii c. Qed.

Lemma scanCourseId_toUpper s : forall hasLetter hasDigit,
  scanCourseId hasLetter hasDigit (toUpper s) =
  scanCourseId hasLetter hasDigit s.
Proof.
  induction s as [|c s IH]; intros hl hd; simpl; [reflexivity|].
  rewrite toupper_isalpha, toupper_isdigit, !IH. reflexivity.
Qed.

(** X4: The validator does not look at the case of the letters: a token and
    its uppercase form are accepted or rejected together. *)
Theorem isCourseIdValid_toUpper (s : string) :
  isCourseIdValid (toUpper s) = isCourseIdValid s.
Proof.
  destruct s as [|c s]; [reflexivity|].
  change (scanCourseId false false (toUpper (String c s)) =
          scanCourseId false false (String c s)).
  apply scanCourseId_toUpper.
Qed.

(** X3: [toUpper] keeps the length, leaves no lower-case letter 'a'..'z', and
    applying it again changes nothing. *)
Theorem toUpper_normal (s : string) :
  String.length (toUpper s) = String.length s /\
  (forall ch, In ch (chars (toUpper s)) -> islower ch = false) /\
  toUpper (toUpper s) = toUpper s.
Proof.
  induction s as [|c s (Hlen & Hlow & Hidem)]; simpl.
  - repeat split. intros ch [].
  - repeat split.
    + congruence.
    + intros ch [<-|Hin]; [apply toupper_not_lower|auto].
    + rewrite toupper_toupper, Hidem. reflexivity.
Qed.

Lemma scanCourseId_digits s : forall hasLetter,
  scanCourseId hasLetter true s = true <-> hasLetter = true /\ allDigits s.
Proof.
  induction s as [|c s IH]; intros hl; simpl.
  - rewrite andb_true_r. split; [intros ->; split; [reflexivity|intros ch []]|tauto].
  - destruct (Char.isalpha c) eqn:Ha.
    + split; [discriminate|]. intros [_ Hall].
      pose proof (Hall c (or_introl eq_refl)) as Hd.
      rewrite (isalpha_not_isdigit _ Ha) in Hd. discriminate.
    + destruct (Char.isdigit c) eqn:Hd.
      * rewrite IH. split; intros [Hl Hall]; (split; [exact Hl|]).
        -- intros ch [<-|Hin]; auto.
        -- intros ch Hin. apply Hall. right. exact Hin.
      * split; [discriminate|]. intros [_ Hall].
        rewrite (Hall c (or_introl eq_refl)) in Hd. discriminate.
Qed.

Lemma scanCourseId_letters s : forall hasLetter,
  scanCourseId hasLetter false s = true <->
  exists letters digits, s = letters +:+ digits /\
    allLetters letters /\ allDigits digits /\
    (hasLetter = true \/ letters <> EmptyString) /\ digits <> EmptyString.
Proof.
  induction s as [|c s IH]; intros hl; simpl.
  - rewrite andb_false_r. split; [discriminate|].
    intros (l & d & Heq & _ & _ & _ & Hd).
    destruct l; [|discriminate]. rewrite append_nil_l in Heq. congruence.
  - destruct (Char.isalpha c) eqn:Ha.
    + rewrite IH. split.
      * intros (l & d & -> & Hl & Hd & _ & Hne).
        exists (String c l), d.
        split; [reflexivity|]. split; [|split; [exact Hd|]].
        -- intros ch [<-|Hin]; auto.
        -- split; [right; discriminate|exact Hne].
      * intros (l & d & Heq & Hl & Hd & _ & Hne).
        destruct l as [|c' l].
        -- rewrite append_nil_l in Heq. subst d.
           pose proof (Hd c (or_introl eq_refl)) as Hc.
           rewrite (isalpha_not_isdigit _ Ha) in Hc. discriminate.
        -- rewrite append_cons in Heq. injection Heq as <- ->.
           exists l, d. split; [reflexivity|]. split; [|auto].
           intros ch Hin. apply Hl. right. exact Hin.
    + destruct (Char.isdigit c) eqn:Hd.
      * rewrite scanCourseId_digits. split.
        -- intros [-> Hall]. exists EmptyString, (String c s).
           split; [reflexivity|]. split; [intros ch []|].
           split; [intros ch [<-|Hin]; auto|]. split; [auto|discriminate].
        -- intros (l & d & Heq & Hl & Hds & Hhl & Hne).
           destruct l as [|c' l].
           ++ rewrite append_nil_l in Heq. subst d.
              destruct Hhl as [->|Hn]; [|congruence]. split; [reflexivity|].
              intros ch Hin. apply Hds. right. exact Hin.
           ++ rewrite append_cons in Heq. injection Heq as <- ->.
              rewrite (Hl c (or_introl eq_refl)) in Ha. discriminate.
      * split; [discriminate|].
        intros (l & d & Heq & Hl & Hds & _ & Hne).
        destruct l as [|c' l].
        -- rewrite append_nil_l in Heq. subst d.
           rewrite (Hds c (or_introl eq_refl)) in Hd. discriminate.
        -- rewrite append_cons in Heq. injection Heq as <- ->.
           rewrite (Hl c (or_introl eq_refl)) in Ha. discriminate.
Qed.

(** X5: The validator accepts exactly the tokens made of a non-empty run of
    letters followed by a non-empty run of digits. *)
Theorem isCourseIdValid_letters_digits (s : string) :
  isCourseIdValid s = true <->
  exists letters digits, s = letters +:+ digits /\
    letters <> EmptyString /\ digits <> EmptyString /\
    allLetters letters /\ allDigits digits.
Proof.
  assert (H : isCourseIdValid s = scanCourseId false false s)
    by (destruct s; reflexivity).
  rewrite H, scanCourseId_letters. split.
  - intros (l & d & Heq & Hl & Hd & [Hf|Hne] & Hdne); [discriminate|].
    exists l, d. auto.
  - intros (l & d & Heq & Hne & Hdne & Hl & Hd). exists l, d. auto 10.
Qed.

(** ** [std::getline] loops *)

Lemma getlines_nil delim s : getlines delim s = [] <-> s = EmptyString.
Proof.
  destruct s as [|c s]; simpl; [tauto|].
  destruct (Ascii.eqb c delim); [split; discriminate|].
  destruct (getlines delim s); split; discriminate.
Qed.

Lemma back_cons c s : s <> EmptyString -> back (String c s) = back s.
Proof. destruct s; [congruence|reflexivity]. Qed.

Lemma back_None s : back s = None -> s = EmptyString.
Proof.
  induction s as [|c s IH]; [reflexivity|]. destruct s as [|c' s'].
  - discriminate.
  - intros H. rewrite back_cons in H by discriminate.
    specialize (IH H). discriminate.
Qed.

Lemma getlines_no_delim delim s line :
  line ∈ getlines delim s -> ~ In delim (chars line).
Proof.
  revert line. induction s as [|c s IH]; intros line; simpl.
  - intros H. inversion H.
  - destruct (Ascii.eqb_spec c delim) as [->|Hne].
    + intros H. apply elem_of_cons in H as [->|H]; [intros []|auto].
    + destruct (getlines delim s) as [|l more].
      * intros H. apply list_elem_of_singleton in H as ->.
        intros [H|[]]. congruence.
      * intros H. apply elem_of_cons in H as [->|H].
        -- intros [H|H]; [congruence|]. revert H. apply IH. left.
        -- apply IH. right. exact H.
Qed.

(** X6: The lines that a [std::getline] loop reads hold no delimiter, and
    closing each of them with the delimiter gives back the text read,
    with a final delimiter added when the text lacked one. *)
Theorem joinLines_getlines (delim : ascii) (s : string) :
  (forall line, line ∈ getlines delim s -> ~ In delim (chars line)) /\
  joinLines delim (getlines delim s) =
    match back s with
    | None => EmptyString
    | Some ch => if Ascii.eqb ch delim then s else s +:+ String delim ""
    end.
Proof.
  split; [intros line; apply getlines_no_delim|].
  induction s as [|c s IH]; [reflexivity|].
  simpl getlines. destruct (Ascii.eqb_spec c delim) as [->|Hne].
  - simpl joinLines. fold (joinLines delim (getlines delim s)).
    rewrite IH, append_nil_l. destruct s as [|c' s'].
    + simpl. rewrite Ascii.eqb_refl. reflexivity.
    + rewrite (back_cons delim (String c' s')) by discriminate.
      destruct (back (String c' s')) as [ch|] eqn:Hb;
        [|apply back_None in Hb; discriminate Hb].
      destruct (Ascii.eqb ch delim); reflexivity.
  - destruct (getlines delim s) as [|l more] eqn:Hg.
    + apply getlines_nil in Hg as ->. simpl.
      destruct (Ascii.eqb_spec c delim); [congruence|reflexivity].
    + assert (Hs : s <> EmptyString).
      { intros ->. discriminate Hg. }
      rewrite (back_cons c s) by exact Hs.
      change (joinLines delim (String c l :: more))
        with (String c (joinLines delim (l :: more))).
      rewrite IH.
      destruct (back s) as [ch|] eqn:Hb.
      * destruct (Ascii.eqb ch delim); reflexivity.
      * apply back_None in Hb. contradiction.
Qed.

Lemma getlines_join (delim : ascii) (lines : list string)
    (Hlines : forall line, line ∈ lines -> ~ In delim (chars line)) :
  getlines delim (joinLines delim lines) = lines.
Proof.
  induction lines as [|l ls IH]; [reflexivity|].
  assert (Hl : ~ In delim (chars l)) by (apply Hlines; left).
  specialize (IH (fun line Hin => Hlines line (list_elem_of_further _ _ _ Hin))).
  change (joinLines delim (l :: ls))
    with (l +:+ String delim (joinLines delim ls)).
  induction l as [|c l IHl].
  - rewrite append_nil_l. simpl. rewrite Ascii.eqb_refl, IH. reflexivity.
  - rewrite append_cons. simpl.
    destruct (Ascii.eqb_spec c delim) as [->|Hne].
    + destruct Hl. left. reflexivity.
    + rewrite IHl; [reflexivity| |].
      * intros line Hin. apply elem_of_cons in Hin as [->|Hin].
        -- intros H. apply Hl. right. exact H.
        -- apply Hlines. right. exact Hin.
      * intros H. apply Hl. right. exact H.
Qed.

(** X7: A text made of lines without delimiter, each closed by the
    delimiter, is read back by the loop as the same lines. *)
Theorem getlines_joinLines (delim : ascii) (lines : list string)
    (Hlines : forall line, line ∈ lines -> ~ In delim (chars line)) :
  getlines delim (joinLines delim lines) = lines.
Proof. exact (getlines_join delim lines Hlines). Qed.

Lemma getlines_joinLines_witness :
  getlines comma (joinLines comma ["CSCI200"; "Intro"; ""; "MATH101"]) =
    ["CSCI200"; "Intro"; ""; "MATH101"].
Proof.
  apply getlines_joinLines. intros line Hin.
  repeat (apply elem_of_cons in Hin as [->|Hin];
          [vm_compute; intuition discriminate|]).
  inversion Hin.
Defined.

(** ** What a loaded catalog holds *)

Lemma chars_trim_subset s ch : In ch (chars (trim s)) -> In ch (chars s).
Proof.
  destruct (trim_decompose s) as (lead & trail & Hs & _). intros Hin.
  rewrite Hs, !chars_app, !in_app_iff. auto.
Qed.

Lemma columns_tidy line column :
  column ∈ trim <$> getlines comma line -> tidyTitle column.
Proof.
  intros Hin. apply list_elem_of_fmap in Hin as (raw & -> & Hraw). split.
  - apply trim_trim.
  - intros Hc. apply chars_trim_subset in Hc.
    exact (getlines_no_delim _ _ _ Hraw Hc).
Qed.

Lemma toUpper_toUpper s : toUpper (toUpper s) = toUpper s.
Proof.
  induction s as [|c s IH]; simpl; [reflexivity|].
  rewrite toupper_toupper, IH. reflexivity.
Qed.

Lemma lineRecord_wellFormed rawLine c :
  lineRecord rawLine = Some c -> wellFormedCourse c.
Proof.
  unfold lineRecord. destruct (trim rawLine) as [|a line]; [discriminate|].
  destruct (trim <$> getlines comma (String a line))
    as [|c0 [|c1 others]] eqn:Hcols; try discriminate.
  destruct (isCourseIdValid (toUpper c0)) eqn:Hvalid; [|discriminate].
  intros [= <-]. unfold wellFormedCourse. simpl.
  split; [split; [exact Hvalid|apply toUpper_toUpper]|].
  split; [apply (columns_tidy (String a line)); rewrite Hcols; right; left|].
  split.
  - apply (prereqFold_invariant _ _ _ (prereqInvariant_start [])).
  - intros q. rewrite parsePrereqs_accepted, firstOccurrences_elem.
    unfold validCandidates. rewrite list_elem_of_filter, list_elem_of_fmap.
    intros (Hv & col & -> & _). split; [exact Hv|apply toUpper_toUpper].
Qed.

Lemma committed_lookup content id c :
  get (committed content) id = Some c ->
  courseNumber c = id /\ wellFormedCourse c.
Proof.
  unfold get, committed. simpl. rewrite parseFile_lookup. intros Hlast.
  assert (Hin : c ∈ definitionsOf id (fileLines content)).
  { apply last_Some in Hlast as [l' ->]. apply elem_of_app. right. left. }
  unfold definitionsOf in Hin.
  apply list_elem_of_filter in Hin as [<- Hin].
  unfold records in Hin. apply list_elem_of_omap in Hin as (raw & _ & Hrec).
  split; [reflexivity|]. exact (lineRecord_wellFormed _ _ Hrec).
Qed.

(** A reachable catalog is the initial one or what some file committed. *)
Lemma reachable_cases self :
  reachable self ->
  self = emptyCatalog \/
  exists content, records (fileLines content) <> [] /\
    self = committed content.
Proof.
  induction 1 as [|c self Hreach IH]; [left; reflexivity|].
  destruct c as [fs fileName|k|]; simpl; [|exact IH|exact IH].
  destruct (load_outcome fs fileName self)
    as [(_ & Hsame)|[(r0 & _ & _ & Hsame)|
        (p & content & r0 & _ & _ & Hrecs & _ & _ & Hnew)]];
    destruct (load fs fileName self) as [r self']; simpl in *; subst self'.
  - exact IH.
  - exact IH.
  - right. exists content. auto.
Qed.

(** X8: Round trip of the directory: in every state that a catalog object can
    reach, the course that [get] finds under an identifier carries that
    identifier as its own course number. *)
Theorem get_courseNumber (self : Catalog) (courseId : string) (c : Course)
    (Hreach : reachable self) (Hget : get self courseId = Some c) :
  courseNumber c = courseId.
Proof.
  destruct (reachable_cases self Hreach) as [->|(content & _ & ->)].
  - unfold get in Hget. simpl in Hget. rewrite lookup_empty in Hget.
    discriminate.
  - apply (committed_lookup content courseId c Hget).
Qed.

Lemma reachable_afterFirstLoad : reachable afterFirstLoad.
Proof.
  exact (reachable_call (CallLoad buildTree "data.csv") emptyCatalog
           reachable_new).
Qed.

Lemma get_courseNumber_witness :
  get afterFirstLoad "CSCI101" = Some csci101 /\
  courseNumber csci101 = "CSCI101".
Proof.
  assert (Hget : get afterFirstLoad "CSCI101" = Some csci101)
    by (vm_compute; reflexivity).
  split; [exact Hget|].
  exact (get_courseNumber afterFirstLoad "CSCI101" csci101
           reachable_afterFirstLoad Hget).
Defined.

(** X9: Every course of a reachable catalog is in normal form: its number
    passes the validator and is uppercase, its title is trimmed and holds
    no comma, and its prerequisites are distinct identifiers that pass
    the validator and are uppercase.  So [get] never answers for an
    identifier that is not uppercase. *)
Theorem stored_course_well_formed (self : Catalog) (courseId : string)
    (c : Course) (Hreach : reachable self)
    (Hget : get self courseId = Some c) :
  wellFormedCourse c /\ normalizedId courseId.
Proof.
  destruct (reachable_cases self Hreach) as [->|(content & _ & ->)].
  - unfold get in Hget. simpl in Hget. rewrite lookup_empty in Hget.
    discriminate.
  - destruct (committed_lookup content courseId c Hget) as [<- Hwf].
    split; [exact Hwf|exact (proj1 Hwf)].
Qed.

Lemma stored_course_well_formed_witness :
  get afterFirstLoad "CSCI200" = Some csci200 /\ wellFormedCourse csci200.
Proof.
  assert (Hget : get afterFirstLoad "CSCI200" = Some csci200)
    by (vm_compute; reflexivity).
  split; [exact Hget|].
  exact (proj1 (stored_course_well_formed afterFirstLoad "CSCI200" csci200
                  reachable_afterFirstLoad Hget)).
Defined.

(** ** What a load reports *)

Lemma length_buildSortedIds (m : gmap string Course) :
  length (buildSortedIds m) = size m.
Proof.
  unfold buildSortedIds, sort.
  rewrite merge_sort_Permutation, length_fmap. apply length_map_to_list.
Qed.

(** A load that succeeds found the file, could read it and got a record. *)
Lemma load_ok_inv fs fileName self r :
  (load fs fileName self).1 = Returns r -> ok r = true ->
  exists p content, resolveCourseFilePath fs fileName = Returns (Some p) /\
    node fs p = Some (Readable content) /\
    records (fileLines content) <> [].
Proof.
  intros Hret Hok.
  destruct (load_outcome fs fileName self)
    as [(Hthrow & _)|[(r' & Hr' & Hfalse & _)|
        (p & content & r' & Hres & Hnode & Hrecs & _)]].
  - congruence.
  - congruence.
  - eauto.
Qed.

Lemma load_count fs fileName self r :
  (load fs fileName self).1 = Returns r -> ok r = true ->
  courses r = N.of_nat (length (ids (load fs fileName self).2)) /\
  (0 < courses r)%N /\
  ids (load fs fileName self).2 <> [].
Proof.
  intros Hret Hok.
  destruct (load_ok_inv _ _ _ _ Hret Hok)
    as (p & content & Hres & Hnode & Hrecs).
  rewrite (load_success _ _ _ p content) in Hret |- * by assumption.
  simpl in Hret. injection Hret as <-. simpl.
  unfold ids, committed. simpl. rewrite length_buildSortedIds.
  assert (Hsize : size (loadedCourseDirectory (parseFile content)) <> 0%nat).
  { rewrite map_size_non_empty_iff, parseFile_empty. exact Hrecs. }
  repeat split; [lia|].
  intros Hnil. apply Hsize. rewrite <- length_buildSortedIds, Hnil.
  reflexivity.
Qed.

(** X10: The course count of a successful load is the number of identifiers
    that [ids] lists afterwards, and it is at least one. *)
Theorem load_courses_count (fs : FileSystem) (fileName : string)
    (self : Catalog) (r : LoadResult)
    (Hret : (load fs fileName self).1 = Returns r) (Hok : ok r = true) :
  courses r = N.of_nat (length (ids (load fs fileName self).2)) /\
  (0 < courses r)%N /\
  ids (load fs fileName self).2 <> [].
Proof. exact (load_count fs fileName self r Hret Hok). Qed.

Lemma load_courses_count_witness :
  2%N = N.of_nat (length (ids (load buildTree "twice.csv" emptyCatalog).2)).
Proof.
  exact (proj1 (load_courses_count buildTree "twice.csv" emptyCatalog
    {| ok := true; courses := 2;
       warnings := ["Replacing existing course entry for CSCI200."];
       missingPrerequisites := ["PHYS7 (referenced by CSCI200)"];
       path := "/proj/build/twice.csv" |} eq_refl eq_refl)).
Defined.

(** X11: What a load answers does not depend on the catalog it is called on,
    and a successful load leaves nothing of that catalog: the state
    afterwards is the same whatever was loaded before. *)
Theorem load_replaces (fs : FileSystem) (fileName : string)
    (self other : Catalog) :
  (load fs fileName self).1 = (load fs fileName other).1 /\
  (forall r, (load fs fileName self).1 = Returns r -> ok r = true ->
   (load fs fileName self).2 = (load fs fileName other).2).
Proof.
  destruct (load_cases fs fileName)
    as [->|[(Hne & Hres)|[(Hne & Hres)|[(p & Hres & Hnode)|
        (p & content & Hres & Hnode)]]]].
  - split; [reflexivity|]. intros r [= <-]. discriminate.
  - rewrite !load_thrown by assumption. split; [reflexivity|discriminate].
  - rewrite !load_not_located by assumption.
    split; [reflexivity|]. intros r [= <-]. discriminate.
  - rewrite !(load_not_opened _ _ _ p) by assumption.
    split; [reflexivity|]. intros r [= <-]. discriminate.
  - destruct (decide (records (fileLines content) = [])) as [Hrecs|Hrecs].
    + rewrite !(load_no_record _ _ _ p content) by assumption.
      split; [reflexivity|]. intros r [= <-]. discriminate.
    + rewrite !(load_success _ _ _ p content) by assumption.
      split; reflexivity.
Qed.

Lemma load_replaces_witness :
  (load buildTree "twice.csv" afterFirstLoad).2 =
  (load buildTree "twice.csv" emptyCatalog).2.
Proof.
  exact (proj2 (load_replaces buildTree "twice.csv" afterFirstLoad
                  emptyCatalog)
    {| ok := true; courses := 2;
       warnings := ["Replacing existing course entry for CSCI200."];
       missingPrerequisites := ["PHYS7 (referenced by CSCI200)"];
       path := "/proj/build/twice.csv" |} eq_refl eq_refl).
Defined.

Lemma load_path_again fs fileName self other r :
  (load fs fileName self).1 = Returns r -> ok r = true ->
  is_absolute (path r) = true /\
  (exists content, node fs (path r) = Some (Readable content)) /\
  load fs (path r) other = load fs fileName self.
Proof.
  intros Hret Hok.
  destruct (load_ok_inv _ _ _ _ Hret Hok)
    as (p & content & Hres & Hnode & Hrecs).
  rewrite (load_success _ _ self p content) in Hret |- * by assumption.
  simpl in Hret. injection Hret as <-. simpl.
  destruct (resolveCourseFilePath_Some _ _ _ Hres) as [Habs [Hst _]].
  split; [exact Habs|]. split; [eauto|].
  apply load_success; try assumption.
  rewrite (resolve_absolute _ _ Habs), Hst, Hnode. reflexivity.
Qed.

(** X12: The path that a successful load reports is absolute and names the
    file that was read; loading that path, from any directory state of
    the catalog, gives the same result and the same catalog.  This is
    what lets a caller hand the reported path to another catalog
    instance. *)
Theorem load_reported_path (fs : FileSystem) (fileName : string)
    (self other : Catalog) (r : LoadResult)
    (Hret : (load fs fileName self).1 = Returns r) (Hok : ok r = true) :
  is_absolute (path r) = true /\
  (exists content, node fs (path r) = Some (Readable content)) /\
  load fs (path r) other = load fs fileName self.
Proof. exact (load_path_again fs fileName self other r Hret Hok). Qed.

Lemma load_reported_path_witness :
  load buildTree "/proj/data.csv" afterFirstLoad =
    load buildTree "data.csv" emptyCatalog.
Proof.
  exact (proj2 (proj2 (load_reported_path buildTree "data.csv" emptyCatalog
    afterFirstLoad
    {| ok := true; courses := 2; warnings := [];
       missingPrerequisites := []; path := "/proj/data.csv" |}
    eq_refl eq_refl))).
Defined.

(** X13: After a successful load the list of missing prerequisites is empty
    exactly when every prerequisite of every course of the catalog is
    itself a course of the catalog. *)
Theorem missing_empty_iff_closed (fs : FileSystem) (fileName : string)
    (self : Catalog) (r : LoadResult)
    (Hret : (load fs fileName self).1 = Returns r) (Hok : ok r = true) :
  missingPrerequisites r = [] <->
  forall courseId c prereq,
    get (load fs fileName self).2 courseId = Some c ->
    prereq ∈ prerequisites c ->
    is_Some (get (load fs fileName self).2 prereq).
Proof.
  destruct (load_ok_inv _ _ _ _ Hret Hok)
    as (p & content & Hres & Hnode & Hrecs).
  rewrite (load_success _ _ _ p content) in Hret |- * by assumption.
  simpl in Hret. injection Hret as <-. simpl.
  unfold get, committed. simpl.
  set (loaded := loadedCourseDirectory (parseFile content)). split.
  - intros Hnil o c q Ho Hq.
    destruct (loaded !! q) eqn:Hlq; [eauto|]. exfalso.
    assert (Hin : missingDescription q o ∈ collectMissing loaded).
    { apply collectMissing_elem. exists o, c, q. auto. }
    rewrite Hnil in Hin. inversion Hin.
  - intros Hclosed.
    destruct (collectMissing loaded) as [|s rest] eqn:Hm; [reflexivity|].
    assert (Hin : s ∈ collectMissing loaded) by (rewrite Hm; left).
    apply collectMissing_elem in Hin as (o & c & q & Ho & Hq & Hnone & _).
    destruct (Hclosed o c q Ho Hq) as [x Hx]. congruence.
Qed.

Lemma missing_empty_iff_closed_witness :
  is_Some (get afterFirstLoad "CSCI101").
Proof.
  pose proof (missing_empty_iff_closed buildTree "data.csv" emptyCatalog
    {| ok := true; courses := 2; warnings := [];
       missingPrerequisites := []; path := "/proj/data.csv" |}
    eq_refl eq_refl) as H.
  apply (proj1 H eq_refl "CSCI200" csci200 "CSCI101").
  - vm_compute. reflexivity.
  - left.
Defined.

(** ** The warnings of a file *)

Lemma parse_is_Some lines courseId :
  is_Some (loadedCourseDirectory
             (fold_left processLine lines initialLoadState) !! courseId) <->
  courseId ∈ courseNumber <$> records lines.
Proof.
  rewrite parse_lookup. simpl. rewrite lookup_empty, list_elem_of_fmap.
  split.
  - intros [c Hc]. exists c.
    destruct (last (definitionsOf courseId lines)) as [c'|] eqn:Hlast;
      [|discriminate].
    injection Hc as ->.
    assert (Hin : c ∈ definitionsOf courseId lines).
    { apply last_Some in Hlast as [l' ->]. apply elem_of_app. right. left. }
    unfold definitionsOf in Hin. apply list_elem_of_filter in Hin.
    destruct Hin as [<- Hin]. auto.
  - intros (c & -> & Hin).
    destruct (last_is_Some (definitionsOf (courseNumber c) lines)) as [c' ->];
      [|eauto].
    intros Hnil.
    assert (Hc : c ∈ definitionsOf (courseNumber c) lines).
    { unfold definitionsOf. apply list_elem_of_filter. auto. }
    rewrite Hnil in Hc. inversion Hc.
Qed.

Lemma parse_lineNumber lines :
  (N.of_nat (length lines) < 2 ^ 64)%N ->
  lineNumber (fold_left processLine lines initialLoadState) =
    N.of_nat (length lines).
Proof.
  induction lines as [|x l IH] using rev_ind; [reflexivity|].
  rewrite length_app, fold_left_app. simpl. intros Hlen.
  rewrite processLine_lineNumber, IH by lia.
  rewrite N.mod_small by lia. lia.
Qed.

Lemma fileMessages_snoc lines x :
  fileMessages (lines ++ [x]) =
    fileMessages lines ++
    lineMessages (N.of_nat (S (length lines))) x ++
    replacementAt (lines ++ [x]) (length lines) x.
Proof.
  unfold fileMessages. rewrite imap_app, concat_app. simpl.
  rewrite Nat.add_0_r, app_nil_r. f_equal. f_equal.
  apply imap_ext. intros i y Hy. f_equal. unfold replacementAt.
  rewrite take_app_le; [reflexivity|].
  apply lookup_lt_Some in Hy. lia.
Qed.

Lemma parse_warnings lines :
  (N.of_nat (length lines) < 2 ^ 64)%N ->
  collected (fold_left processLine lines initialLoadState) =
    fileMessages lines.
Proof.
  induction lines as [|x l IH] using rev_ind; [reflexivity|].
  rewrite length_app, fold_left_app. simpl. intros Hlen.
  rewrite processLine_collected, IH, fileMessages_snoc by lia.
  rewrite parse_lineNumber by lia.
  rewrite N.mod_small by lia.
  replace (N.of_nat (length l) + 1)%N with (N.of_nat (S (length l))) by lia.
  f_equal. f_equal. unfold replacementAt.
  rewrite take_app_length.
  destruct (lineRecord x) as [c|]; [|reflexivity].
  pose proof (parse_is_Some l (courseNumber c)) as Hs.
  destruct (loadedCourseDirectory (fold_left processLine l initialLoadState)
              !! courseNumber c) eqn:Hl.
  - rewrite decide_True; [reflexivity|]. apply Hs. eauto.
  - rewrite decide_False; [reflexivity|]. intros Hin.
    apply Hs in Hin as [? ?]. discriminate.
Qed.

(** X14: The warnings of a load that could open its file, whether it succeeds
    or finds no record, are those of the lines in file order: for each
    line, numbered from 1 with blank lines counted, its own messages (none
    for a blank line, one for too few fields or an invalid identifier,
    those of its prerequisite fields otherwise), then the replacement
    warning if an earlier line defined the same identifier.  The line
    counter is a [std::size_t]; the file is taken to have fewer than
    [2^64] lines. *)
Theorem load_warnings (fs : FileSystem) (fileName : string) (self : Catalog)
    (p content : string)
    (Hres : resolveCourseFilePath fs fileName = Returns (Some p))
    (Hnode : node fs p = Some (Readable content))
    (Hlen : (N.of_nat (length (fileLines content)) < 2 ^ 64)%N) :
  exists r, (load fs fileName self).1 = Returns r /\
    warnings r = fileMessages (fileLines content).
Proof.
  assert (Hw : collected (parseFile content) = fileMessages (fileLines content))
    by (apply parse_warnings; exact Hlen).
  destruct (decide (records (fileLines content) = [])) as [Hrecs|Hrecs].
  - rewrite (load_no_record _ _ _ p content) by assumption.
    eexists. split; [reflexivity|exact Hw].
  - rewrite (load_success _ _ _ p content) by assumption.
    eexists. split; [reflexivity|exact Hw].
Qed.

Lemma load_warnings_witness :
  exists r, (load buildTree "bad.csv" emptyCatalog).1 = Returns r /\
    warnings r = fileMessages (fileLines "200CSCI,Bad ID").
Proof.
  refine (load_warnings buildTree "bad.csv" emptyCatalog
            "/proj/build/bad.csv" "200CSCI,Bad ID" eq_refl eq_refl _).
  vm_compute. reflexivity.
Defined.

Lemma absolute_nonempty p : is_absolute p = true -> p <> EmptyString.
Proof. intros H ->. discriminate. Qed.

(** ** Calls that end by an exception *)

Lemma resolve_throws_relative fs fileName :
  fileName <> EmptyString -> is_absolute fileName = false ->
  cwdAvailable fs = true ->
  resolveCourseFilePath fs fileName = Throws <->
  exists k, (k < kMaxParentSearchDepth)%nat /\
    statusFails fs (candidate fs fileName k) = true /\
    forall j, (j < k)%nat -> absent fs (candidate fs fileName j).
Proof.
  intros Hne Hrel Hcwd.
  pose proof (resolve_relative fs fileName Hne Hrel Hcwd) as Hres.
  destruct (resolveCourseFilePath fs fileName) as [[p|]|].
  - split; [discriminate|]. intros (k & Hk & Hfail & Hfirst). exfalso.
    destruct Hres as (k' & Hk' & -> & Hpres & Hfirst').
    destruct (Nat.lt_total k k') as [Hlt|[->|Hlt]].
    + exact (absent_answers _ _ (Hfirst' k Hlt) Hfail).
    + exact (present_answers _ _ Hpres Hfail).
    + exact (present_not_absent _ _ Hpres (Hfirst k' Hlt)).
  - split; [discriminate|]. intros (k & Hk & Hfail & _). exfalso.
    exact (absent_answers _ _ (Hres k Hk) Hfail).
  - split; [intros _; exact Hres|reflexivity].
Qed.

(** X27: [load] ends by the exception of a library call, instead of
    returning a result, in these cases and no other: the name is
    absolute and its status query fails; the name is relative and the
    current directory cannot be reported; the name is relative and the
    status query fails on one of the ten candidates, those before it
    being absent.  The empty name never throws.  A call that throws
    leaves the catalog as it was. *)
Theorem load_throws (fs : FileSystem) (fileName : string) (self : Catalog) :
  (fileName = EmptyString -> (load fs fileName self).1 <> Throws) /\
  (is_absolute fileName = true ->
     ((load fs fileName self).1 = Throws <->
      statusFails fs fileName = true)) /\
  (fileName <> EmptyString -> is_absolute fileName = false ->
     cwdAvailable fs = false -> (load fs fileName self).1 = Throws) /\
  (fileName <> EmptyString -> is_absolute fileName = false ->
     cwdAvailable fs = true ->
     ((load fs fileName self).1 = Throws <->
      exists k, (k < kMaxParentSearchDepth)%nat /\
        statusFails fs (candidate fs fileName k) = true /\
        forall j, (j < k)%nat -> absent fs (candidate fs fileName j))) /\
  ((load fs fileName self).1 = Throws -> (load fs fileName self).2 = self).
Proof.
  assert (Hiff : fileName <> EmptyString ->
    ((load fs fileName self).1 = Throws <->
     resolveCourseFilePath fs fileName = Throws)).
  { intros Hne.
    destruct (load_cases fs fileName)
      as [->|[(_ & Hres)|[(_ & Hres)|[(p & Hres & Hnode)|
          (p & content & Hres & Hnode)]]]]; [congruence|..].
    - rewrite load_thrown by assumption. tauto.
    - rewrite load_not_located by assumption. rewrite Hres.
      split; discriminate.
    - rewrite (load_not_opened _ _ _ p) by assumption. rewrite Hres.
      split; discriminate.
    - rewrite (load_resolved _ _ _ p) by assumption. rewrite Hres.
      destruct (openedAt_returns fs p self) as (r & -> & _).
      split; discriminate. }
  split; [|split; [|split; [|split]]].
  - intros ->. discriminate.
  - intros Habs. rewrite Hiff by (apply absolute_nonempty, Habs).
    rewrite (resolve_absolute _ _ Habs).
    destruct (statusFails fs fileName); [tauto|].
    destruct (node fs fileName); split; discriminate.
  - intros Hne Hrel Hcwd. apply Hiff; [exact Hne|].
    apply resolve_relative_no_cwd; assumption.
  - intros Hne Hrel Hcwd. rewrite Hiff by exact Hne.
    apply resolve_throws_relative; assumption.
  - intros Hthrow.
    destruct (load_outcome fs fileName self)
      as [(_ & Hsame)|[(r & Hr & _)|(p & content & r & _ & _ & _ & Hr & _)]];
      [exact Hsame|congruence|congruence].
Qed.

(** A name under the directory that may not be searched. *)
Lemma load_throws_witness :
  (load buildTree "/proj/private/notes.csv" afterFirstLoad).1 = Throws /\
  (load buildTree "/proj/private/notes.csv" afterFirstLoad).2 =
    afterFirstLoad.
Proof.
  assert (H : (load buildTree "/proj/private/notes.csv" afterFirstLoad).1 =
                Throws).
  { apply (proj1 (proj2 (load_throws buildTree "/proj/private/notes.csv"
                           afterFirstLoad)) eq_refl). reflexivity. }
  split; [exact H|].
  exact (proj2 (proj2 (proj2 (proj2 (load_throws buildTree
    "/proj/private/notes.csv" afterFirstLoad)))) H).
Defined.

(** ** Cleaning up a typed course number (main_cli.cpp) *)

Lemma scan_back s : forall hasLetter hasDigit,
  s <> EmptyString -> scanCourseId hasLetter hasDigit s = true ->
  exists ch, back s = Some ch /\ Char.isdigit ch = true.
Proof.
  induction s as [|c s IH]; intros hl hd Hne Hscan; [congruence|].
  destruct s as [|c' s'].
  - exists c. split; [reflexivity|]. simpl in Hscan.
    destruct (Char.isalpha c).
    + destruct hd; [discriminate|]. simpl in Hscan. discriminate.
    + destruct (Char.isdigit c); [reflexivity|discriminate].
  - rewrite back_cons by discriminate.
    change (scanCourseId hl hd (String c (String c' s')))
      with (if Char.isalpha c then
              if hd then false else scanCourseId true hd (String c' s')
            else if Char.isdigit c then scanCourseId hl true (String c' s')
            else false) in Hscan.
    destruct (Char.isalpha c).
    + destruct hd; [discriminate|]. eapply IH; [discriminate|exact Hscan].
    + destruct (Char.isdigit c); [|discriminate].
      eapply IH; [discriminate|exact Hscan].
Qed.

Lemma scan_parse s : forall hasLetter hasDigit,
  scanCourseId hasLetter hasDigit s = true -> Cli.parseCourseId hasDigit s = s.
Proof.
  induction s as [|c s IH]; intros hl hd; simpl; [reflexivity|].
  destruct (Char.isalpha c).
  - destruct hd; [discriminate|]. intros H. f_equal. eapply IH, H.
  - destruct (Char.isdigit c); [|discriminate].
    intros H. f_equal. eapply IH, H.
Qed.

Lemma digit_not_comma ch : Char.isdigit ch = true -> Ascii.eqb ch comma = false.
Proof.
  destruct (Ascii.eqb_spec ch comma) as [->|]; [discriminate|reflexivity].
Qed.

Lemma removeTrailingComma_valid s :
  isCourseIdValid s = true -> Cli.removeTrailingComma s = s.
Proof.
  intros Hvalid. destruct s as [|c s]; [reflexivity|].
  destruct (scan_back (String c s) false false) as (ch & Hback & Hdigit);
    [discriminate|exact Hvalid|].
  unfold Cli.removeTrailingComma. rewrite Hback, digit_not_comma by assumption.
  reflexivity.
Qed.

Lemma normalizeCourseIdInput_valid input :
  isCourseIdValid (toUpper (trim input)) = true ->
  Cli.normalizeCourseIdInput input =
    Some {| Cli.id := toUpper (trim input); Cli.wasTrimmed := false |}.
Proof.
  intros Hvalid. unfold Cli.normalizeCourseIdInput.
  rewrite (removeTrailingComma_valid _ Hvalid).
  destruct (toUpper (trim input)) as [|c s] eqn:Hclean; [discriminate|].
  rewrite (scan_parse (String c s) false false) by exact Hvalid.
  rewrite Hvalid, String.eqb_refl. reflexivity.
Qed.

(** X16: A token that is a valid course number once trimmed and uppercased is
    taken whole: the cleaned-up number is that uppercase form, and it is
    not flagged as changed. *)
Theorem normalize_valid_input (input : string)
    (Hvalid : isCourseIdValid (toUpper (trim input)) = true) :
  Cli.normalizeCourseIdInput input =
    Some {| Cli.id := toUpper (trim input); Cli.wasTrimmed := false |}.
Proof. exact (normalizeCourseIdInput_valid input Hvalid). Qed.

Lemma normalize_valid_input_witness :
  Cli.normalizeCourseIdInput "  csci200 " =
    Some {| Cli.id := "CSCI200"; Cli.wasTrimmed := false |}.
Proof.
  exact (normalize_valid_input "  csci200 " eq_refl).
Defined.

Lemma parse_prefix s : forall hasDigit,
  exists rest, s = Cli.parseCourseId hasDigit s +:+ rest /\
    forall ch, front rest = Some ch -> Char.isdigit ch = false.
Proof.
  induction s as [|c s IH]; intros hd; simpl.
  - exists EmptyString. split; [reflexivity|discriminate].
  - destruct (Char.isalpha c) eqn:Ha.
    + destruct hd.
      * exists (String c s). split; [reflexivity|].
        intros ch [= <-]. apply isalpha_not_isdigit, Ha.
      * destruct (IH false) as (rest & Heq & Hrest). exists rest.
        rewrite append_cons, <- Heq. auto.
    + destruct (Char.isdigit c) eqn:Hd.
      * destruct (IH true) as (rest & Heq & Hrest). exists rest.
        rewrite append_cons, <- Heq. auto.
      * exists (String c s). split; [reflexivity|].
        intros ch [= <-]. exact Hd.
Qed.

Lemma toupper_fixed c : islower c = false -> Char.toupper c = c.
Proof.
  destruct c as [[] [] [] [] [] [] [] []]; vm_compute;
    first [reflexivity|discriminate].
Qed.

Lemma toUpper_fixed s :
  (forall ch, In ch (chars s) -> islower ch = false) -> toUpper s = s.
Proof.
  induction s as [|c s IH]; intros H; simpl; [reflexivity|].
  rewrite toupper_fixed by (apply H; left; reflexivity).
  rewrite IH; [reflexivity|]. intros ch Hin. apply H. right. exact Hin.
Qed.

Lemma chars_pop_back s ch : In ch (chars (pop_back s)) -> In ch (chars s).
Proof.
  induction s as [|c s IH]; [intros []|]. destruct s as [|c' s'];
    [intros []|].
  change (pop_back (String c (String c' s')))
    with (String c (pop_back (String c' s'))).
  intros [<-|Hin]; [left; reflexivity|right; auto].
Qed.

Lemma chars_removeTrailingComma s ch :
  In ch (chars (Cli.removeTrailingComma s)) -> In ch (chars s).
Proof.
  unfold Cli.removeTrailingComma. destruct (back s) as [l|]; [|auto].
  destruct (Ascii.eqb l comma); [|auto].
  intros Hin. apply chars_pop_back, chars_trim_subset, Hin.
Qed.

Lemma toUpper_no_lower s ch : In ch (chars (toUpper s)) -> islower ch = false.
Proof.
  induction s as [|c s IH]; simpl; [intros []|].
  intros [<-|Hin]; [apply toupper_not_lower|auto].
Qed.

Lemma cleanedInput_upper input ch :
  In ch (chars (cleanedInput input)) -> islower ch = false.
Proof.
  intros Hin. apply chars_removeTrailingComma in Hin.
  apply (toUpper_no_lower (trim input)), Hin.
Qed.

(** X17: Whatever [normalizeCourseIdInput] answers is a course number in
    normal form (accepted by the validator, uppercase) that starts the
    cleaned input; what follows it there does not begin with a digit, so
    no longer prefix would do; and the answer is flagged as changed
    exactly when something follows. *)
Theorem normalize_sound (input : string) (r : Cli.NormalizedCourseId)
    (Hsome : Cli.normalizeCourseIdInput input = Some r) :
  normalizedId (Cli.id r) /\
  exists rest, cleanedInput input = Cli.id r +:+ rest /\
    (forall ch, front rest = Some ch -> Char.isdigit ch = false) /\
    (Cli.wasTrimmed r = false <-> rest = EmptyString).
Proof.
  unfold Cli.normalizeCourseIdInput in Hsome. fold (cleanedInput input) in Hsome.
  pose proof (cleanedInput_upper input) as Hupper.
  destruct (cleanedInput input) as [|c s] eqn:Hclean; [discriminate|].
  destruct (isCourseIdValid (Cli.parseCourseId false (String c s)))
    eqn:Hvalid; [|discriminate].
  injection Hsome as <-. simpl.
  destruct (parse_prefix (String c s) false) as (rest & Heq & Hrest).
  set (parsed := Cli.parseCourseId false (String c s)) in *.
  split; [split; [exact Hvalid|]|].
  - apply toUpper_fixed. intros ch Hin. apply Hupper.
    rewrite Heq, chars_app, in_app_iff. left. exact Hin.
  - exists rest. split; [exact Heq|]. split; [exact Hrest|].
    rewrite negb_false_iff, String.eqb_eq. split.
    + intros Hp.
      assert (Hinj : parsed +:+ "" = parsed +:+ rest)
        by (rewrite append_nil_r, <- Heq; exact Hp).
      symmetry. exact (String.app_inj parsed _ _ Hinj).
    + intros ->. rewrite append_nil_r in Heq. symmetry. exact Heq.
Qed.

Lemma normalize_sound_witness :
  Cli.normalizeCourseIdInput "math101x," =
    Some {| Cli.id := "MATH101"; Cli.wasTrimmed := true |} /\
  normalizedId "MATH101".
Proof.
  assert (H : Cli.normalizeCourseIdInput "math101x," =
            Some {| Cli.id := "MATH101"; Cli.wasTrimmed := true |})
    by reflexivity.
  split; [exact H|].
  exact (proj1 (normalize_sound "math101x," _ H)).
Defined.

(** ** Looking a course up from the menu *)

Lemma reachable_get_valid self courseId c :
  reachable self -> get self courseId = Some c ->
  courseNumber c = courseId /\ normalizedId courseId.
Proof.
  intros Hreach Hget.
  destruct (reachable_cases self Hreach) as [->|(content & _ & ->)].
  - unfold get in Hget. simpl in Hget. rewrite lookup_empty in Hget.
    discriminate.
  - destruct (committed_lookup content courseId c Hget) as [<- Hwf].
    split; [reflexivity|exact (proj1 Hwf)].
Qed.

(** X18: Every course of the catalog is found from the menu by its number,
    typed in any letter case and with blanks around it: the lookup
    prints the prompt and then the details of that course, without the
    "Searching for course" notice and without "Course not found". *)
Theorem lookup_finds_loaded_course (ansi : Cli.TextStyle -> string)
    (st : Cli.Session) (courseId input : string) (c : Course)
    (Hreach : reachable (Cli.courseCatalog st))
    (Hget : get (Cli.courseCatalog st) courseId = Some c)
    (Hinput : toUpper (trim input) = courseId) :
  Cli.normalizeCourseIdInput input =
    Some {| Cli.id := courseId; Cli.wasTrimmed := false |} /\
  Cli.handleCourseLookup ansi st (Some input) =
    [ansi Cli.Prompt; "Enter the course number: "; ansi Cli.Reset] ++
    Cli.printCourseDetails ansi st c.
Proof.
  destruct (reachable_get_valid _ _ _ Hreach Hget) as (_ & Hvalid & _).
  assert (Hnorm : Cli.normalizeCourseIdInput input =
    Some {| Cli.id := courseId; Cli.wasTrimmed := false |}).
  { rewrite <- Hinput. apply normalizeCourseIdInput_valid.
    rewrite Hinput. exact Hvalid. }
  split; [exact Hnorm|].
  unfold Cli.handleCourseLookup. rewrite Hnorm. simpl. rewrite Hget.
  reflexivity.
Qed.

Lemma reachable_loadedSession : reachable (Cli.courseCatalog loadedSession).
Proof. exact reachable_afterFirstLoad. Qed.

Lemma lookup_finds_loaded_course_witness :
  Cli.handleCourseLookup plainPalette loadedSession (Some " csci200 ") =
    [""; "Enter the course number: "; ""] ++
    Cli.printCourseDetails plainPalette loadedSession csci200.
Proof.
  refine (proj2 (lookup_finds_loaded_course plainPalette loadedSession
                   "CSCI200" " csci200 " csci200 reachable_loadedSession _ _)).
  - vm_compute. reflexivity.
  - reflexivity.
Defined.

(** ** The variables of the menu program *)

Lemma loadCoursesFromFile_state ansi fs fileName st r :
  (load fs fileName (Cli.courseCatalog st)).1 = Returns r ->
  (Cli.loadCoursesFromFile ansi fs fileName st).1.1 = Returns (ok r) /\
  (Cli.loadCoursesFromFile ansi fs fileName st).2 =
    {| Cli.loadedData := ok r;
       Cli.courseCatalog := (load fs fileName (Cli.courseCatalog st)).2;
       Cli.lastLoadResult := r;
       Cli.currentCatalogPath :=
         if ok r then path r else Cli.currentCatalogPath st;
       Cli.advisorGuiExecutable := Cli.advisorGuiExecutable st |}.
Proof.
  unfold Cli.loadCoursesFromFile.
  destruct (load fs fileName (Cli.courseCatalog st)) as [r' cat]. simpl.
  intros ->. destruct (ok r); split; reflexivity.
Qed.

(** When [load] throws, so does [loadCoursesFromFile], before any
    assignment and any output. *)
Lemma loadCoursesFromFile_thrown ansi fs fileName st :
  (load fs fileName (Cli.courseCatalog st)).1 = Throws ->
  Cli.loadCoursesFromFile ansi fs fileName st = (Throws, [], st).
Proof.
  intros Hthrow. unfold Cli.loadCoursesFromFile.
  destruct (load_outcome fs fileName (Cli.courseCatalog st))
    as [(_ & Hsame)|[(r & Hr & _)|(p & content & r & _ & _ & _ & Hr & _)]];
    [|congruence|congruence].
  destruct (load fs fileName (Cli.courseCatalog st)) as [r cat].
  simpl in *. subst. destruct st; reflexivity.
Qed.

Lemma committed_not_empty content :
  records (fileLines content) <> [] -> committed content <> emptyCatalog.
Proof.
  intros Hrecs Heq. apply Hrecs, parseFile_empty.
  change (courseDirectory (committed content) = ∅). rewrite Heq. reflexivity.
Qed.

Lemma reachable_load fs fileName self :
  reachable self -> reachable (load fs fileName self).2.
Proof.
  intros Hreach.
  pose proof (reachable_call (CallLoad fs fileName) self Hreach) as H.
  simpl in H. destruct (load fs fileName self). exact H.
Qed.

Lemma session_invariant ansi st : reachableSession ansi st -> sessionInvariant st.
Proof.
  induction 1 as [exe|fs fileName st Hreach IH].
  - unfold sessionInvariant. simpl. split; [constructor|].
    split; [reflexivity|]. split; [discriminate|]. split; [reflexivity|].
    congruence.
  - set (old := Cli.courseCatalog st) in *.
    destruct (load_outcome fs fileName old)
      as [(Hthrow & _)|[(r & Hr & Hok & Hsame)|
          (p & content & r & Hres & Hnode & Hrecs & Hr & Hok & Hnew)]].
    + rewrite loadCoursesFromFile_thrown by exact Hthrow. exact IH.
    + destruct IH as (Hcat & Hflag & Hloaded & Hnone & Hpath).
      rewrite (proj2 (loadCoursesFromFile_state ansi fs fileName st r Hr)).
      unfold sessionInvariant. simpl. fold old.
      split; [exact (reachable_load fs fileName old Hcat)|].
      split; [reflexivity|].
      rewrite Hok, Hsame. split; [discriminate|]. split; assumption.
    + destruct IH as (Hcat & Hflag & Hloaded & Hnone & Hpath).
      rewrite (proj2 (loadCoursesFromFile_state ansi fs fileName st r Hr)).
      unfold sessionInvariant. simpl. fold old.
      split; [exact (reachable_load fs fileName old Hcat)|].
      split; [reflexivity|].
      rewrite Hok.
      destruct (load_path_again fs fileName old old r Hr Hok)
        as (Habs & _ & _).
      split; [|split].
      * intros _. split; [reflexivity|]. exists fs, fileName, old.
        rewrite <- Hr. destruct (load fs fileName old); reflexivity.
      * intros Hempty. destruct (absolute_nonempty _ Habs Hempty).
      * intros _. split; [exact Habs|].
        exists fs, r. split; [exact Hok|].
        intros other.
        rewrite (proj2 (proj2 (load_path_again fs fileName old other r
                                 Hr Hok))).
        rewrite <- Hr. destruct (load fs fileName old); reflexivity.
Qed.

Lemma course_lines_of ansi (cat : Catalog) (l : list string) :
  (forall courseId, courseId ∈ l -> is_Some (get cat courseId)) ->
  exists cs,
    Forall2 (fun courseId c => get cat courseId = Some c) l cs /\
    flat_map
      (fun courseId =>
         match get cat courseId with
         | None => []
         | Some course => [Cli.courseLine ansi course]
         end) l = Cli.courseLine ansi <$> cs.
Proof.
  induction l as [|x l IH]; intros Hall.
  - exists []. split; [constructor|reflexivity].
  - destruct IH as (cs & Hcs & Heq).
    { intros y Hy. apply Hall. right. exact Hy. }
    destruct (Hall x) as [c Hc]; [left|].
    exists (c :: cs). split; [constructor; assumption|].
    simpl. rewrite Hc, Heq. reflexivity.
Qed.

(** X19: The course list that the menu prints has, under its two heading
    lines, one line per identifier of [ids], in that (sorted) order, each
    made of the number and the title of the course that [get] finds: the
    guard that skips an identifier without course never applies. *)
Theorem course_list_lines (ansi : Cli.TextStyle -> string) (st : Cli.Session)
    (Hreach : reachable (Cli.courseCatalog st)) :
  exists cs,
    Forall2
      (fun courseId c =>
         get (Cli.courseCatalog st) courseId = Some c /\
         courseNumber c = courseId)
      (ids (Cli.courseCatalog st)) cs /\
    Cli.courseListLines ansi st =
      courseListHeading ansi ++ (Cli.courseLine ansi <$> cs).
Proof.
  pose proof (reachable_invariant _ Hreach) as Hinv.
  destruct (course_lines_of ansi (Cli.courseCatalog st)
              (ids (Cli.courseCatalog st))) as (cs & Hcs & Heq).
  { intros x Hx. unfold ids in Hx. rewrite Hinv in Hx.
    apply buildSortedIds_elem in Hx. exact Hx. }
  exists cs. split.
  - eapply Forall2_impl; [exact Hcs|]. intros x c Hc. split; [exact Hc|].
    apply (reachable_get_valid _ _ _ Hreach Hc).
  - unfold Cli.courseListLines, courseListHeading. simpl. rewrite Heq.
    reflexivity.
Qed.

Lemma course_list_lines_witness :
  Cli.courseListLines plainPalette loadedSession =
    courseListHeading plainPalette ++
    (Cli.courseLine plainPalette <$> [csci101; csci200]).
Proof.
  destruct (course_list_lines plainPalette loadedSession
              reachable_loadedSession) as (cs & Hcs & Heq).
  rewrite Heq. f_equal. f_equal.
  change (ids (Cli.courseCatalog loadedSession)) with ["CSCI101"; "CSCI200"]
    in Hcs.
  inversion Hcs as [|x1 c1 l1 cs1 [H1 _] Hrest]; subst.
  inversion Hrest as [|x2 c2 l2 cs2 [H2 _] Hnil]; subst.
  inversion Hnil; subst.
  vm_compute in H1. vm_compute in H2.
  injection H1 as <-. injection H2 as <-. reflexivity.
Defined.

(** X20: Once a load has succeeded from the menu and none has failed since,
    which is what the flag [loadedData] records, the catalog has
    courses, the count shown is the number of identifiers listed, and
    printing the list gives the framed list, never the message "No
    courses available to display." *)
Theorem loaded_session_lists_courses (ansi : Cli.TextStyle -> string)
    (frame : Cli.FrameStyle) (st : Cli.Session)
    (Hreach : reachableSession ansi st)
    (Hloaded : Cli.loadedData st = true) :
  ids (Cli.courseCatalog st) <> [] /\
  courses (Cli.lastLoadResult st) =
    N.of_nat (length (ids (Cli.courseCatalog st))) /\
  Cli.printAllCourses ansi frame st =
    [Cli.endl] ++
    Cli.printFramedLines ansi frame (Cli.courseListLines ansi st) ++
    [Cli.endl].
Proof.
  destruct (session_invariant ansi st Hreach) as (_ & Hflag & Hinv & _).
  destruct (Hinv Hloaded) as (_ & fs & fileName & other & Hload).
  assert (Hret : (load fs fileName other).1 =
                   Returns (Cli.lastLoadResult st)).
  { rewrite Hload. reflexivity. }
  assert (Hok : ok (Cli.lastLoadResult st) = true) by congruence.
  destruct (load_count fs fileName other _ Hret Hok) as (Hcount & _ & Hids).
  rewrite Hload in Hcount, Hids. simpl in Hcount, Hids.
  split; [exact Hids|]. split; [exact Hcount|].
  unfold Cli.printAllCourses.
  destruct (ids (Cli.courseCatalog st)); [congruence|reflexivity].
Qed.

Lemma session_loadedSession : reachableSession plainPalette loadedSession.
Proof.
  exact (session_load plainPalette buildTree "data.csv" _
           (session_start plainPalette "advisor_gui")).
Qed.

Lemma loaded_session_lists_courses_witness :
  courses (Cli.lastLoadResult loadedSession) = 2%N /\
  length (ids (Cli.courseCatalog loadedSession)) = 2%nat.
Proof.
  destruct (loaded_session_lists_courses plainPalette asciiFrame
              loadedSession session_loadedSession eq_refl)
    as (_ & Hcount & _).
  split; [reflexivity|]. apply Nat2N.inj. rewrite <- Hcount. reflexivity.
Defined.

(** X21: A load that returns a failure to the menu makes
    [loadCoursesFromFile] answer false and clear the flag [loadedData],
    while the catalog and the remembered path stay as they were: the
    courses loaded before are still there, although the menu will ask to
    load again before listing them. *)
Theorem failed_load_keeps_session (ansi : Cli.TextStyle -> string)
    (fs : FileSystem) (fileName : string) (st : Cli.Session)
    (r : LoadResult)
    (Hret : (load fs fileName (Cli.courseCatalog st)).1 = Returns r)
    (Hfail : ok r = false) :
  (Cli.loadCoursesFromFile ansi fs fileName st).1.1 = Returns false /\
  Cli.loadedData (Cli.loadCoursesFromFile ansi fs fileName st).2 = false /\
  Cli.lastLoadResult (Cli.loadCoursesFromFile ansi fs fileName st).2 = r /\
  Cli.courseCatalog (Cli.loadCoursesFromFile ansi fs fileName st).2 =
    Cli.courseCatalog st /\
  Cli.currentCatalogPath (Cli.loadCoursesFromFile ansi fs fileName st).2 =
    Cli.currentCatalogPath st.
Proof.
  destruct (loadCoursesFromFile_state ansi fs fileName st r Hret)
    as [Hanswer Hstate].
  rewrite Hanswer, Hstate. simpl. rewrite Hfail.
  destruct (load_outcome fs fileName (Cli.courseCatalog st))
    as [(Hthrow & _)|[(r' & _ & _ & Hsame)|
        (p & content & r' & _ & _ & _ & Hr' & Hok & _)]];
    [congruence| |congruence].
  repeat split. exact Hsame.
Qed.

Lemma failed_load_keeps_session_witness :
  Cli.loadedData
    (Cli.loadCoursesFromFile plainPalette buildTree "bad.csv"
       loadedSession).2 = false /\
  ids (Cli.courseCatalog
         (Cli.loadCoursesFromFile plainPalette buildTree "bad.csv"
            loadedSession).2) = ["CSCI101"; "CSCI200"].
Proof.
  assert (Hret : (load buildTree "bad.csv"
                    (Cli.courseCatalog loadedSession)).1 =
    Returns
      {| ok := false; courses := 0;
         warnings := ["Skipping line 1: invalid course ID '200CSCI'."];
         missingPrerequisites := []; path := "/proj/build/bad.csv" |})
    by (vm_compute; reflexivity).
  destruct (failed_load_keeps_session plainPalette buildTree "bad.csv"
              loadedSession _ Hret eq_refl) as (_ & Hflag & _ & Hcat & _).
  split; [exact Hflag|]. rewrite Hcat. vm_compute. reflexivity.
Defined.

(** X28: [loadCoursesFromFile] ends by an exception exactly when [load]
    does, since nothing in between catches it; the exception leaves
    before the assignment to [lastLoadResult], so the variables of the
    session keep their values, and nothing is written. *)
Theorem load_exception_propagates (ansi : Cli.TextStyle -> string)
    (fs : FileSystem) (fileName : string) (st : Cli.Session) :
  ((Cli.loadCoursesFromFile ansi fs fileName st).1.1 = Throws <->
   (load fs fileName (Cli.courseCatalog st)).1 = Throws) /\
  ((load fs fileName (Cli.courseCatalog st)).1 = Throws ->
   Cli.loadCoursesFromFile ansi fs fileName st = (Throws, [], st)).
Proof.
  split; [split|].
  - intros Hthrow.
    destruct (load fs fileName (Cli.courseCatalog st)).1 as [r|] eqn:Hr;
      [|reflexivity].
    rewrite (proj1 (loadCoursesFromFile_state ansi fs fileName st r Hr))
      in Hthrow.
    discriminate.
  - intros Hthrow. rewrite loadCoursesFromFile_thrown by exact Hthrow.
    reflexivity.
  - apply loadCoursesFromFile_thrown.
Qed.

Lemma load_exception_propagates_witness :
  Cli.loadCoursesFromFile plainPalette buildTree "/proj/private/notes.csv"
    loadedSession = (Throws, [], loadedSession).
Proof.
  apply (proj2 (load_exception_propagates plainPalette buildTree
                  "/proj/private/notes.csv" loadedSession)).
  vm_compute. reflexivity.
Defined.



(** X23: Every warning of the result that [load] returns is written to
    the console by [loadCoursesFromFile], whether the load succeeds or
    fails, and after a success so is every missing prerequisite: none is
    dropped.  When [load] throws instead, nothing is written. *)
Theorem load_prints_every_message (ansi : Cli.TextStyle -> string)
    (fs : FileSystem) (fileName : string) (st : Cli.Session) :
  let printed := (Cli.loadCoursesFromFile ansi fs fileName st).1.2 in
  match (load fs fileName (Cli.courseCatalog st)).1 with
  | Returns result =>
      (forall w, w ∈ warnings result -> w ∈ printed) /\
      (ok result = true ->
       forall m, m ∈ missingPrerequisites result -> m ∈ printed)
  | Throws => printed = []
  end.
Proof.
  cbv zeta. unfold Cli.loadCoursesFromFile.
  destruct (load fs fileName (Cli.courseCatalog st)) as [[r|] cat]; simpl;
    [|reflexivity].
  destruct (ok r); simpl; split.
  - intros w Hw. do 7 right. apply elem_of_app. left.
    unfold Cli.reportLoadMessages. apply elem_of_app. left.
    apply list_elem_of_In, in_flat_map. exists w.
    split; [apply list_elem_of_In, Hw|right; left; reflexivity].
  - intros _ m Hm. do 7 right. apply elem_of_app. left.
    unfold Cli.reportLoadMessages. apply elem_of_app. right.
    destruct (missingPrerequisites r) as [|m0 ms] eqn:Hmiss;
      [inversion Hm|].
    apply list_elem_of_In, in_flat_map. exists m.
    split; [apply list_elem_of_In, Hm|right; right; left; reflexivity].
  - intros w Hw. apply elem_of_app. left.
    apply list_elem_of_In, in_flat_map. exists w.
    split; [apply list_elem_of_In, Hw|right; left; reflexivity].
  - discriminate.
Qed.

(** ** The list model of the dashboard (models.cpp) *)

Lemma to_int_small n : (0 <= n < 2 ^ 31)%Z -> to_int n = n.
Proof. intros H. unfold to_int. rewrite Z.mod_small; lia. Qed.

Lemma to_int_le n : (0 <= n)%Z -> (0 < to_int n)%Z -> (to_int n <= n)%Z.
Proof.
  unfold to_int. intros Hn Hpos.
  pose proof (Z.div_mod (n + 2 ^ 31) (2 ^ 32) ltac:(lia)) as Hdm.
  pose proof (Z.div_pos (n + 2 ^ 31) (2 ^ 32) ltac:(lia) ltac:(lia)) as Hq.
  lia.
Qed.

Lemma courseIdForRow_cases (model : Gui.CourseListModel) (row : Z) :
  ((row < 0 \/ Gui.size_as_int model <= row)%Z /\
   Gui.courseIdForRow model row = Some Gui.Null) \/
  ((0 <= row < Gui.size_as_int model)%Z /\
   exists courseId,
     Gui.courseIds model !! Z.to_nat row = Some courseId /\
     Gui.courseIdForRow model row = Some (Gui.FromStdString courseId)).
Proof.
  unfold Gui.courseIdForRow.
  destruct (Z.ltb_spec row 0) as [Hneg|Hnonneg]; simpl; [left; auto|].
  destruct (Z.leb_spec (Gui.size_as_int model) row) as [Hge|Hlt];
    [left; auto|].
  right. split; [lia|].
  assert (Hle : (Gui.size_as_int model <=
                 Z.of_nat (length (Gui.courseIds model)))%Z).
  { apply to_int_le; [lia|]. unfold Gui.size_as_int in Hlt. lia. }
  assert (Hbound : (Gui.size_as_int model < 2 ^ 31)%Z).
  { unfold Gui.size_as_int, to_int.
    pose proof (Z.mod_pos_bound
      (Z.of_nat (length (Gui.courseIds model)) + 2 ^ 31) (2 ^ 32)
      ltac:(lia)). lia. }
  unfold Gui.at_. rewrite Z.mod_small by lia.
  destruct (lookup_lt_is_Some_2 (Gui.courseIds model) (Z.to_nat row))
    as [courseId Hid]; [lia|].
  exists courseId. rewrite Hid. auto.
Qed.

(** X25: [courseIdForRow] never reads outside the vector, whatever the row and
    however many identifiers the model holds: it answers the null string
    for a row that is negative or not below the row count, and otherwise
    the identifier stored at that row. *)
Theorem courseIdForRow_in_range (model : Gui.CourseListModel) (row : Z) :
  ((row < 0 \/ Gui.size_as_int model <= row)%Z /\
   Gui.courseIdForRow model row = Some Gui.Null) \/
  ((0 <= row < Gui.size_as_int model)%Z /\
   exists courseId,
     Gui.courseIds model !! Z.to_nat row = Some courseId /\
     Gui.courseIdForRow model row = Some (Gui.FromStdString courseId)).
Proof. exact (courseIdForRow_cases model row). Qed.

(** X26: Fed with the [ids] of a reachable catalog of fewer than [2^31]
    courses, the list model has one row per course, in sorted order:
    every row in range gives an identifier that [get] finds, and every
    other row gives the null string. *)
Theorem list_model_rows (self : Catalog) (model : Gui.CourseListModel)
    (Hreach : reachable self)
    (Hsize : (Z.of_nat (length (ids self)) < 2 ^ 31)%Z) :
  let model' := Gui.setCourseIds model (ids self) in
  Gui.rowCount model' false = Z.of_nat (length (ids self)) /\
  Gui.rowCount model' true = 0%Z /\
  forall row,
    ((0 <= row < Z.of_nat (length (ids self)))%Z ->
     exists courseId c,
       ids self !! Z.to_nat row = Some courseId /\
       Gui.courseIdForRow model' row = Some (Gui.FromStdString courseId) /\
       get self courseId = Some c /\ courseNumber c = courseId) /\
    (~ (0 <= row < Z.of_nat (length (ids self)))%Z ->
     Gui.courseIdForRow model' row = Some Gui.Null).
Proof.
  cbv zeta.
  assert (Hcount : Gui.size_as_int (Gui.setCourseIds model (ids self)) =
                   Z.of_nat (length (ids self))).
  { unfold Gui.size_as_int. simpl. apply to_int_small. lia. }
  unfold Gui.rowCount. rewrite Hcount.
  split; [reflexivity|]. split; [reflexivity|].
  intros row.
  destruct (courseIdForRow_cases (Gui.setCourseIds model (ids self)) row)
    as [(Hout & Hnull)|(Hin & courseId & Hid & Hrow)];
    rewrite Hcount in *; simpl in *.
  - split; [lia|auto].
  - split; [|lia]. intros _.
    pose proof (reachable_invariant _ Hreach) as Hinv.
    assert (Hmem : courseId ∈ ids self)
      by (apply list_elem_of_lookup; eauto).
    unfold ids in Hmem. rewrite Hinv in Hmem.
    apply buildSortedIds_elem in Hmem as [c Hc].
    exists courseId, c. repeat split; auto.
    apply (reachable_get_valid _ _ _ Hreach Hc).
Qed.

Lemma list_model_rows_witness :
  Gui.rowCount (Gui.setCourseIds {| Gui.courseIds := [] |}
                  (ids afterFirstLoad)) false = 2%Z /\
  Gui.courseIdForRow (Gui.setCourseIds {| Gui.courseIds := [] |}
                        (ids afterFirstLoad)) 5 = Some Gui.Null.
Proof.
  destruct (list_model_rows afterFirstLoad {| Gui.courseIds := [] |}
              reachable_afterFirstLoad) as (Hcount & _ & Hrows).
  - vm_compute. reflexivity.
  - split; [exact Hcount|]. apply (Hrows 5%Z). vm_compute. intros [_ H].
    discriminate H.
Defined.

(** ** The frame around printed lines *)

Lemma length_append s1 s2 :
  String.length (s1 +:+ s2) = (String.length s1 + String.length s2)%nat.
Proof.
  induction s1 as [|c s1 IH]; [reflexivity|].
  rewrite append_cons. simpl. rewrite IH. reflexivity.
Qed.

Lemma length_repeatPattern pattern count :
  String.length (Cli.repeatPattern pattern count) =
    (count * String.length pattern)%nat.
Proof.
  induction count as [|n IH]; [reflexivity|].
  simpl. rewrite length_append, IH. reflexivity.
Qed.

Lemma chars_repeatPattern pattern count ch :
  In ch (chars (Cli.repeatPattern pattern count)) -> In ch (chars pattern).
Proof.
  induction count as [|n IH]; simpl; [intros []|].
  rewrite chars_app, in_app_iff. tauto.
Qed.

Lemma maxWidth_fold lines : forall start,
  (start <= fold_left
     (fun width line => Nat.max width (String.length (Cli.plain line)))
     lines start)%nat /\
  forall line, line ∈ lines ->
    (String.length (Cli.plain line) <=
     fold_left
       (fun width line => Nat.max width (String.length (Cli.plain line)))
       lines start)%nat.
Proof.
  induction lines as [|l ls IH]; intros start; simpl.
  - split; [lia|]. intros line H. inversion H.
  - destruct (IH (Nat.max start (String.length (Cli.plain l)))) as [Hs Hall].
    split; [lia|]. intros line Hin.
    apply elem_of_cons in Hin as [->|Hin]; [lia|auto].
Qed.

Lemma maxWidth_bound lines line :
  line ∈ lines -> (String.length (Cli.plain line) <= Cli.maxWidth lines)%nat.
Proof. apply (maxWidth_fold lines 0). Qed.

Lemma written_app l1 l2 : written (l1 ++ l2) = written l1 +:+ written l2.
Proof.
  induction l1 as [|x l1 IH]; [reflexivity|].
  simpl. rewrite IH, append_assoc. reflexivity.
Qed.

Lemma joinLines_app delim l1 l2 :
  joinLines delim (l1 ++ l2) = joinLines delim l1 +:+ joinLines delim l2.
Proof.
  induction l1 as [|x l1 IH]; [reflexivity|].
  simpl. rewrite IH, append_assoc. reflexivity.
Qed.

Lemma frameRow_written width line :
  Cli.colored line = Cli.plain line ->
  written
    ([plainPalette Cli.MenuBorder; Cli.vertical asciiFrame;
      plainPalette Cli.Reset; " "] ++
     match Cli.colored line with
     | EmptyString => []
     | text => [text; plainPalette Cli.Reset]
     end ++
     [Cli.repeatPattern " " (width - String.length (Cli.plain line)); " ";
      plainPalette Cli.MenuBorder; Cli.vertical asciiFrame;
      plainPalette Cli.Reset; Cli.endl]) =
  frameRow width line +:+ String newline "".
Proof.
  intros Hcol. rewrite Hcol. unfold frameRow.
  destruct (Cli.plain line) as [|c s] eqn:Hp.
  - simpl. rewrite !append_assoc. reflexivity.
  - cbn [app written fold_right plainPalette asciiFrame Cli.vertical Cli.endl].
    rewrite !append_assoc, !append_nil_l, ?append_nil_r. reflexivity.
Qed.

Lemma frame_body_written width (lines : list Cli.StyledLine) :
  (forall line, line ∈ lines -> Cli.colored line = Cli.plain line) ->
  written
    (flat_map
       (fun line =>
          [plainPalette Cli.MenuBorder; Cli.vertical asciiFrame;
           plainPalette Cli.Reset; " "] ++
          match Cli.colored line with
          | EmptyString => []
          | text => [text; plainPalette Cli.Reset]
          end ++
          [Cli.repeatPattern " " (width - String.length (Cli.plain line));
           " "; plainPalette Cli.MenuBorder; Cli.vertical asciiFrame;
           plainPalette Cli.Reset; Cli.endl])
       lines) =
  joinLines newline (frameRow width <$> lines).
Proof.
  induction lines as [|l ls IH]; intros Hall; [reflexivity|].
  cbn [flat_map]. rewrite written_app, frameRow_written by (apply Hall; left).
  rewrite IH by (intros line Hin; apply Hall; right; exact Hin).
  rewrite fmap_cons. cbn [joinLines fold_right].
  rewrite append_assoc. reflexivity.
Qed.

Lemma printFramedLines_written (lines : list Cli.StyledLine) :
  (forall line, line ∈ lines -> Cli.colored line = Cli.plain line) ->
  written (Cli.printFramedLines plainPalette asciiFrame lines) =
    joinLines newline (frameRows lines).
Proof.
  intros Hall. unfold Cli.printFramedLines, frameRows.
  cbn [Cli.vertical asciiFrame].
  rewrite !written_app, frame_body_written by exact Hall.
  change (frameEdge (Cli.maxWidth lines) ::
          (frameRow (Cli.maxWidth lines) <$> lines) ++
          [frameEdge (Cli.maxWidth lines)])
    with ([frameEdge (Cli.maxWidth lines)] ++
          (frameRow (Cli.maxWidth lines) <$> lines) ++
          [frameEdge (Cli.maxWidth lines)]).
  rewrite !joinLines_app.
  assert (Hedge : forall corner1 corner2,
    corner1 = "+" -> corner2 = "+" ->
    written
      [plainPalette Cli.MenuBorder;
       corner1 +:+
       Cli.repeatPattern (Cli.horizontal asciiFrame) (Cli.maxWidth lines + 2)
       +:+ corner2;
       plainPalette Cli.Reset; Cli.endl] =
    joinLines newline [frameEdge (Cli.maxWidth lines)]).
  { intros c1 c2 -> ->. unfold written, joinLines, frameEdge.
    cbn [fold_right plainPalette Cli.horizontal asciiFrame Cli.endl].
    rewrite !append_nil_l, append_nil_r. reflexivity. }
  rewrite !Hedge by reflexivity. reflexivity.
Qed.

Lemma frameRows_no_newline (lines : list Cli.StyledLine) row :
  (forall line, line ∈ lines -> plainLine line) ->
  row ∈ frameRows lines -> ~ In newline (chars row).
Proof.
  intros Hall Hrow.
  assert (Hedge : ~ In newline (chars (frameEdge (Cli.maxWidth lines)))).
  { unfold frameEdge. rewrite !chars_app, !in_app_iff.
    intros [H|[H|H]].
    - destruct H as [H|[]]. discriminate H.
    - apply chars_repeatPattern in H. destruct H as [H|[]]. discriminate H.
    - destruct H as [H|[]]. discriminate H. }
  unfold frameRows in Hrow.
  apply elem_of_cons in Hrow as [->|Hrow]; [exact Hedge|].
  apply elem_of_app in Hrow as [Hrow|Hrow].
  - apply list_elem_of_fmap in Hrow as (line & -> & Hline).
    destruct (Hall line Hline) as [_ Hnl].
    unfold frameRow. rewrite !chars_app, !in_app_iff.
    intros [H|[H|[H|H]]].
    + destruct H as [H|[H|[]]]; discriminate H.
    + contradiction.
    + apply chars_repeatPattern in H. destruct H as [H|[]]. discriminate H.
    + destruct H as [H|[H|[]]]; discriminate H.
  - apply list_elem_of_singleton in Hrow as ->. exact Hedge.
Qed.

(** X24: With colours off and the ASCII frame, what [printFramedLines] writes
    is a rectangle: read back line by line it is a top edge, one row per
    given line and a bottom edge, and every one of them is four
    characters longer than the widest given line. *)
Theorem frame_is_rectangular (lines : list Cli.StyledLine)
    (Hplain : forall line, line ∈ lines -> plainLine line) :
  getlines newline
    (written (Cli.printFramedLines plainPalette asciiFrame lines)) =
    frameRows lines /\
  length (frameRows lines) = (length lines + 2)%nat /\
  forall row, row ∈ frameRows lines ->
    String.length row = (Cli.maxWidth lines + 4)%nat.
Proof.
  split; [|split].
  - rewrite printFramedLines_written
      by (intros line Hin; apply (Hplain line Hin)).
    apply getlines_join. intros row Hrow.
    exact (frameRows_no_newline lines row Hplain Hrow).
  - unfold frameRows. simpl. rewrite length_app, length_fmap. simpl. lia.
  - assert (Hedge : String.length (frameEdge (Cli.maxWidth lines)) =
                    (Cli.maxWidth lines + 4)%nat).
    { unfold frameEdge. rewrite !length_append, length_repeatPattern.
      simpl. lia. }
    intros row Hrow. unfold frameRows in Hrow.
    apply elem_of_cons in Hrow as [->|Hrow]; [exact Hedge|].
    apply elem_of_app in Hrow as [Hrow|Hrow].
    + apply list_elem_of_fmap in Hrow as (line & -> & Hline).
      pose proof (maxWidth_bound lines line Hline) as Hle.
      unfold frameRow. rewrite !length_append, length_repeatPattern.
      simpl. lia.
    + apply list_elem_of_singleton in Hrow as ->. exact Hedge.
Qed.

Lemma frame_is_rectangular_witness :
  getlines newline
    (written (Cli.printFramedLines plainPalette asciiFrame
                (Cli.courseListLines plainPalette loadedSession))) =
    ["+-----------------------------------+";
     "| Course List                       |";
     "|                                   |";
     "| CSCI101, Programming Fundamentals |";
     "| CSCI200, Intro to CS              |";
     "+-----------------------------------+"].
Proof.
  assert (Hplain : forall line,
    line ∈ Cli.courseListLines plainPalette loadedSession -> plainLine line).
  { intros line Hin. vm_compute in Hin.
    repeat (apply elem_of_cons in Hin as [->|Hin];
            [split; [reflexivity|vm_compute; intuition discriminate]|]).
    inversion Hin. }
  rewrite (proj1 (frame_is_rectangular
                    (Cli.courseListLines plainPalette loadedSession) Hplain)).
  vm_compute. reflexivity.
Defined.

(** ** Lines without record *)

(** X15: The catalog that a file commits depends only on the sequence of its
    valid records: blank lines, lines with too few fields and lines with
    an invalid identifier leave no trace in it, wherever they stand. *)
Theorem skipped_lines_leave_no_trace (content1 content2 : string)
    (Hrecords : records (fileLines content1) = records (fileLines content2)) :
  committed content1 = committed content2 /\
  forall courseId,
    get (committed content1) courseId = get (committed content2) courseId.
Proof.
  assert (Hmap : loadedCourseDirectory (parseFile content1) =
                 loadedCourseDirectory (parseFile content2)).
  { apply map_eq. intros k. rewrite !parseFile_lookup.
    unfold definitionsOf. rewrite Hrecords. reflexivity. }
  unfold committed, get. simpl. rewrite Hmap. split; reflexivity.
Qed.

Lemma skipped_lines_leave_no_trace_witness :
  committed
    ("bad line" +:+ String newline
       (String newline ("9X,Nine" +:+ String newline twoCourses))) =
  committed twoCourses.
Proof.
  refine (proj1 (skipped_lines_leave_no_trace _ twoCourses _)).
  vm_compute. reflexivity.
Defined.
